(** * Debatrix batch driver ([run_batch.py]): coroutines [work] and [main]

    The batch script judges a range of preset debates, several times each,
    under a semaphore of twelve permits, while the platform's server runs as
    a background task.  This development embeds the two coroutines of the
    script as state machines whose states are the [await] points of the
    source, runs them under an interleaving scheduler that follows asyncio's
    task, [TaskGroup] and [Semaphore] contracts, and proves properties of
    every schedule. *)

From Stdlib Require Import ZArith Ascii String DecimalString.
From stdpp Require Import base list strings.

Local Open Scope string_scope.
Local Open Scope list_scope.
Local Open Scope Z_scope.
Local Set Warnings "-register-all".

(** ** Python values, exceptions and results *)

(** [print(f"...\n")]: the strings below end with the line feed of the
    source's f-strings. *)
Definition nl : string := String (ascii_of_nat 10) EmptyString.

(** Exceptions the script can meet.  [Exc cls msg] is an instance of a
    subclass of [Exception] whose [str()] is [msg]; [CancelledError] derives
    from [BaseException] only, so [except Exception] lets it through. *)
Inductive exn : Type :=
| Exc (cls msg : string)
| CancelledError.

Inductive result (A : Type) : Type :=
| Ret (a : A)
| Raise (e : exn).
Arguments Ret {A} a.
Arguments Raise {A} e.

(** Sequencing: an exception ends the block. *)
#[global] Instance result_bind : MBind result := fun A B k r =>
  match r with
  | Ret a => k a
  | Raise e => Raise e
  end.

Inductive ChatModelBackend : Type := TEST | OPENAI.

(** The configuration is the JSON-like tree held in [session.config_data]. *)
Inductive pyval : Type :=
| PNone
| PBool (b : bool)
| PInt (z : Z)
| PStr (s : string)
| PBackend (b : ChatModelBackend)
| PList (l : list pyval)
| PDict (d : list (string * pyval)).

Fixpoint assoc_get (k : string) (d : list (string * pyval)) : option pyval :=
  match d with
  | [] => None
  | (k', v) :: d' => if String.eqb k k' then Some v else assoc_get k d'
  end.

(** [d[k] = v] on a dict: an existing key keeps its place, a new key goes
    last. *)
Fixpoint assoc_set (k : string) (v : pyval) (d : list (string * pyval))
  : list (string * pyval) :=
  match d with
  | [] => [(k, v)]
  | (k', v') :: d' =>
      if String.eqb k k' then (k, v) :: d' else (k', v') :: assoc_set k v d'
  end.

Definition quote (k : string) : string := "'" +:+ k +:+ "'".

(** [c[k]] *)
Definition getitem (k : string) (c : pyval) : result pyval :=
  match c with
  | PDict d =>
      match assoc_get k d with
      | Some v => Ret v
      | None => Raise (Exc "KeyError" (quote k))
      end
  | _ => Raise (Exc "TypeError" "object is not subscriptable by a string key")
  end.

(** [c[k] = v] *)
Definition setitem (k : string) (v : pyval) (c : pyval) : result pyval :=
  match c with
  | PDict d => Ret (PDict (assoc_set k v d))
  | _ => Raise (Exc "TypeError" "object does not support item assignment")
  end.

(** [sub = c[k]; <mutate sub>]: the sub-dictionary is the same object as the
    one stored under [k], so its mutation shows in [c]. *)
Definition within (k : string) (f : pyval -> result pyval) (c : pyval)
  : result pyval :=
  sub ← getitem k c;
  sub' ← f sub;
  setitem k sub' c.

(** ** Script arguments *)

Inductive Framework : Type := Gpt | NonIter | Debatrix.
Inductive Llm : Type := LlmTest | LlmChatgpt | LlmGpt4.

Record ScriptArgs : Type := {
  preset : string;
  framework : Framework;
  start : Z;
  stop : Z;
  repeat : Z;
  dimensions : option (list string);
  should_summarize : bool;
  llm : Llm;
  debug_server : bool;
  root_dir : string
}.

Definition is_gpt (f : Framework) : bool :=
  match f with Gpt => true | _ => false end.
Definition is_debatrix (f : Framework) : bool :=
  match f with Debatrix => true | _ => false end.

(** [x in names], for a value [x] and a list of strings. *)
Definition in_names (x : pyval) (names : list string) : bool :=
  match x with
  | PStr s => existsb (String.eqb s) names
  | _ => false
  end.

(** Lines 63-66, one dimension. *)
Definition restrict_dimension (names : list string) (dimension : pyval)
  : result pyval :=
  name ← getitem "name" dimension;
  if in_names name names then Ret dimension
  else setitem "weight" (PInt (-1)) dimension.

Fixpoint restrict_dimensions (names : list string) (l : list pyval)
  : result (list pyval) :=
  match l with
  | [] => Ret []
  | d :: l' =>
      d' ← restrict_dimension names d;
      l'' ← restrict_dimensions names l';
      Ret (d' :: l'')
  end.

Fixpoint chars (s : string) : list pyval :=
  match s with
  | EmptyString => []
  | String c s' => PStr (String c EmptyString) :: chars s'
  end.

(** [for dimension in manager_config["dimensions"]]: a list yields its
    items, a dict its keys and a string its characters (the loop body then
    fails on the first of them); other values are not iterable. *)
Definition restrict_all (names : list string) (manager : pyval) : result pyval :=
  ds ← getitem "dimensions" manager;
  match ds with
  | PList l =>
      l' ← restrict_dimensions names l;
      setitem "dimensions" (PList l') manager
  | PDict d =>
      _ ← restrict_dimensions names (map (fun kv => PStr (fst kv)) d);
      Ret manager
  | PStr s =>
      _ ← restrict_dimensions names (chars s);
      Ret manager
  | _ => Raise (Exc "TypeError" "object is not iterable")
  end.

(** Lines 33-70 of [work]: the in-place edits of [session.config_data]. *)
Definition configure (args : ScriptArgs) (config : pyval) : result pyval :=
  config ← within "arena" (setitem "streaming_delay" (PInt 0)) config;
  config ← within "model" (within "chat_config" (fun chat =>
      chat ← setitem "backend"
                (PBackend match llm args with LlmTest => TEST | _ => OPENAI end)
                chat;
      chat ← within "test_config" (setitem "predict_delay" (PInt 0)) chat;
      within "openai_config"
        (setitem "model"
           (PStr match llm args with
                 | LlmGpt4 => "gpt-4-0125-preview"
                 | _ => "gpt-3.5-turbo-0125"
                 end))
        chat)) config;
  config ← within "panel" (within "judge_config" (fun judge =>
      judge ← setitem "allow_concurrency" (PBool true) judge;
      judge ← setitem "allow_ai_callback" (PBool false) judge;
      judge ← setitem "analyze_speech"
                 (PBool (negb (is_gpt (framework args)))) judge;
      setitem "iterate_analysis" (PBool (is_debatrix (framework args))) judge))
    config;
  config ← within "panel" (within "panel_config" (fun panel =>
      panel ← setitem "allow_concurrency" (PBool true) panel;
      setitem "allow_ai_callback" (PBool false) panel)) config;
  config ← within "manager" (fun manager =>
      manager ← setitem "should_summarize" (PBool (should_summarize args))
                   manager;
      match dimensions args with
      | Some names => restrict_all names manager
      | None => Ret manager
      end) config;
  within "recorder" (fun recorder =>
      recorder ← setitem "include_prompts" (PBool false) recorder;
      setitem "verdict_only" (PBool true) recorder) config.

(** ** Debate results and sessions *)

(** Modelled from the spec: the verdict classes of [debatrix.core.common]
    are not part of the source file; the fields are those [work] reads. *)
Record DebaterVerdict : Type := { debater_name : string; score : Z }.
Record WinnerVerdict : Type := { winner : string }.
Record Verdict : Type := {
  debaters_verdict : list DebaterVerdict;
  winner_verdict : WinnerVerdict
}.
Record DimensionalVerdict : Type := { verdict : Verdict }.
Record DebateResult : Type := {
  final_verdict : option Verdict;
  dimensional_verdicts : list DimensionalVerdict
}.
Record DebateInfo : Type := { motion : string }.

(** Modelled from the spec: [debatrix.platform.Session] is not part of the
    source file.  A session is given by its data and by what each awaited
    method answers to the unit that holds it: a value or an exception.
    [select_debate code] answers with the [cur_info] the session has once
    the call returned. *)
Record Session : Type := {
  config_data : pyval;
  motions : list (string * string);
  update_config : result unit;
  select_debate : string -> result (option DebateInfo);
  start_debate : result (option DebateResult);
  save_record : result string;
  reset_debate : result unit
}.

(** [l[i]] on a Python list: a negative index counts from the end. *)
Definition py_index {A} (l : list A) (i : Z) : result A :=
  let n := Z.of_nat (length l) in
  let j := if i <? 0 then i + n else i in
  match (if 0 <=? j then l !! Z.to_nat j else None) with
  | Some x => Ret x
  | None => Raise (Exc "IndexError" "list index out of range")
  end.

(** [str(score)] *)
Definition str (z : Z) : string := NilZero.string_of_int (Z.to_int z).

(** [debaters_scores[name].append(score)] on a [defaultdict(list)], whose
    keys stay in insertion order. *)
Fixpoint add_score (name : string) (sc : Z) (d : list (string * list Z))
  : list (string * list Z) :=
  match d with
  | [] => [(name, [sc])]
  | (n, scs) :: d' =>
      if String.eqb name n then (n, scs ++ [sc]) :: d'
      else (n, scs) :: add_score name sc d'
  end.

(** Lines 88-95: the aggregated view. *)
Definition report_summary (r : DebateResult) : result (list string) :=
  match final_verdict r with
  | None => Raise (Exc "AssertionError" "")
  | Some fv =>
      Ret (map (fun dv => debater_name dv +:+ ": " +:+ str (score dv))
             (debaters_verdict fv)
           ++ ["Winner: " +:+ winner (winner_verdict fv) +:+ nl])
  end.

(** Lines 97-109: the per-dimension view. *)
Definition report_dimensions (r : DebateResult) : list string :=
  let debaters_scores :=
    fold_left (fun acc dim =>
                 fold_left (fun acc dv =>
                              add_score (debater_name dv) (score dv) acc)
                   (debaters_verdict (verdict dim)) acc)
      (dimensional_verdicts r) [] in
  let winners :=
    map (fun dim => winner (winner_verdict (verdict dim)))
      (dimensional_verdicts r) in
  map (fun ns => fst ns +:+ ": " +:+ String.concat ", " (map str (snd ns)))
    debaters_scores
  ++ ["Winner: " +:+ String.concat ", " winners +:+ nl].

(** Lines 85-109: what is printed after the [End] line. *)
Definition report (args : ScriptArgs) (r : option DebateResult)
  : result (list string) :=
  match r with
  | None => Ret ["Debate cancelled." +:+ nl]
  | Some r =>
      if should_summarize args then report_summary r
      else Ret (report_dimensions r)
  end.

(** ** One work unit: [wait_and_work] and [work] *)

(** What a unit does that others can observe: semaphore operations, calls
    into the platform and the session, and printed lines. *)
Inductive Event : Type :=
| Acquire
| Release
| CallAssign
| CallUpdateConfig (config : pyval)
| CallSelectDebate (motion_code : string)
| CallStartDebate
| CallSaveRecord
| CallResetDebate
| Print (line : string).

(** How a task ends: [Task.result()] returns, raises the stored exception,
    or the task is cancelled. *)
Inductive Outcome : Type :=
| Finished
| Failed (cls msg : string)
| Cancelled.

Definition outcome_of (r : result unit) : Outcome :=
  match r with
  | Ret _ => Finished
  | Raise (Exc cls msg) => Failed cls msg
  | Raise CancelledError => Cancelled
  end.

(** The [await] a unit task is suspended at.  A coroutine only gives up
    control there, so these are the states of the task. *)
Inductive UnitPc : Type :=
| AtGate                                              (* line 126 *)
| AtAssign                                            (* line 127 *)
| AtUpdateConfig (session : Session)                  (* line 72 *)
| AtSelectDebate (session : Session) (motion_code : string)  (* line 75 *)
| AtStartDebate (session : Session) (title : string)  (* line 82 *)
| AtSaveRecord (session : Session)                    (* line 111 *)
| AtResetDebate (session : Session) (pending : option exn)   (* line 115 *)
| Ended (o : Outcome).

(** What runs between two suspensions: the events, and where the task
    stops next. *)
Definition Slice : Type := list Event * UnitPc.

(** The value an [await] resumes with: [Task.cancel()] makes the pending
    [await] raise [CancelledError] instead. *)
Definition await {A} (cancelled : bool) (r : result A) : result A :=
  if cancelled then Raise CancelledError else r.

Section Unit.

Variable args : ScriptArgs.

(** Leaving [async with semaphore] (line 126) by return or by exception:
    the permit goes back and the task ends. *)
Definition leave (r : result unit) : Slice :=
  ([Release], Ended (outcome_of r)).

(** Lines 33-72, up to [await session.update_config()]. *)
Definition work_enter (session : Session) : Slice :=
  match configure args (config_data session) with
  | Ret config => ([CallUpdateConfig config], AtUpdateConfig session)
  | Raise e => leave (Raise e)
  end.

(** Lines 74-75. *)
Definition work_select (session : Session) (debate_id : Z) : Slice :=
  match py_index (motions session) debate_id with
  | Ret motion =>
      ([CallSelectDebate (fst motion)], AtSelectDebate session (fst motion))
  | Raise e => leave (Raise e)
  end.

(** Lines 76-82: the assertion, the title, the [Start] line, and into the
    [try] block. *)
Definition work_start (session : Session) (motion_code : string)
    (cur_info : option DebateInfo) : Slice :=
  match cur_info with
  | None => leave (Raise (Exc "AssertionError" ""))
  | Some info =>
      let title := motion_code +:+ " --- " +:+ motion info in
      ([Print ("Start: " +:+ title +:+ nl); CallStartDebate],
       AtStartDebate session title)
  end.

(** Lines 112-115: an exception inside the [try] block.  [except Exception]
    prints it; any other exception stays pending; [finally] awaits
    [session.reset_debate()] in both cases. *)
Definition work_handle (session : Session) (e : exn) : Slice :=
  match e with
  | Exc _ msg =>
      ([Print ("Failed: " +:+ msg +:+ nl); CallResetDebate],
       AtResetDebate session None)
  | CancelledError =>
      ([CallResetDebate], AtResetDebate session (Some CancelledError))
  end.

(** Lines 83-111, up to [await session.save_record()]. *)
Definition work_report (session : Session) (title : string)
    (r : option DebateResult) : Slice :=
  match report args r with
  | Ret lines =>
      (Print ("End: " +:+ title +:+ nl) :: map Print lines ++ [CallSaveRecord],
       AtSaveRecord session)
  | Raise e =>
      (Print ("End: " +:+ title +:+ nl) :: fst (work_handle session e),
       snd (work_handle session e))
  end.

(** Line 111 resumed, then [finally]. *)
Definition work_saved (session : Session) (location : string) : Slice :=
  ([Print ("Verdict saved at " +:+ location +:+ nl); CallResetDebate],
   AtResetDebate session None).

(** After the [finally] block: a pending exception goes on. *)
Definition work_exit (pending : option exn) : Slice :=
  match pending with
  | Some e => leave (Raise e)
  | None => leave (Ret ())
  end.

(** One resumption of the task of [wait_and_work(debate_id)].  [free] tells
    whether the semaphore has a permit, [cancelled] whether the task was
    cancelled since it last ran, [assigned] is the answer of
    [platform.assign()] to this unit.  [None]: the task cannot run. *)
Definition resume (free cancelled : bool) (assigned : result Session)
    (debate_id : Z) (pc : UnitPc) : option Slice :=
  match pc with
  | AtGate =>
      if cancelled then Some ([], Ended Cancelled)
      else if free then Some ([Acquire; CallAssign], AtAssign)
      else None
  | AtAssign =>
      Some match await cancelled assigned with
           | Ret session => work_enter session
           | Raise e => leave (Raise e)
           end
  | AtUpdateConfig session =>
      Some match await cancelled (update_config session) with
           | Ret _ => work_select session debate_id
           | Raise e => leave (Raise e)
           end
  | AtSelectDebate session motion_code =>
      Some match await cancelled (select_debate session motion_code) with
           | Ret cur_info => work_start session motion_code cur_info
           | Raise e => leave (Raise e)
           end
  | AtStartDebate session title =>
      Some match await cancelled (start_debate session) with
           | Ret r => work_report session title r
           | Raise e => work_handle session e
           end
  | AtSaveRecord session =>
      Some match await cancelled (save_record session) with
           | Ret location => work_saved session location
           | Raise e => work_handle session e
           end
  | AtResetDebate session pending =>
      Some match await cancelled (reset_debate session) with
           | Ret _ => work_exit pending
           | Raise e => leave (Raise e)
           end
  | Ended _ => None
  end.

(** A unit on its own: the permit is free and nobody cancels the task. *)
Fixpoint drive (fuel : nat) (assigned : result Session) (debate_id : Z)
    (tr : list Event) (pc : UnitPc) : list Event * UnitPc :=
  match fuel with
  | O => (tr, pc)
  | S fuel' =>
      match resume true false assigned debate_id pc with
      | Some (evs, pc') => drive fuel' assigned debate_id (tr ++ evs) pc'
      | None => (tr, pc)
      end
  end.

(** Seven suspensions at most separate the start of the task from its
    end. *)
Definition wait_and_work (assigned : result Session) (debate_id : Z)
  : list Event * UnitPc :=
  drive 8 assigned debate_id [] AtGate.

End Unit.

(** The lines a trace prints. *)
Definition output (tr : list Event) : list string :=
  omap (fun e => match e with Print line => Some line | _ => None end) tr.

Definition is_ended (pc : UnitPc) : bool :=
  match pc with Ended _ => true | _ => false end.

(** Whether a task at [pc] holds a permit of the semaphore. *)
Definition holding (pc : UnitPc) : bool :=
  match pc with AtGate | Ended _ => false | _ => true end.

(** ** The batch: [main] *)

(** Modelled from the spec: [debatrix.platform.Platform] is not part of the
    source file.  [serve()] is the long-lived server coroutine: it may end
    by itself ([serve_early]), and [serve_cancelled] is how it ends when
    [CancelledError] is thrown into it while it runs (raising it again
    acknowledges the cancellation).  [assign debate_id repetition] is the
    answer of [platform.assign()] to the unit created for that pair. *)
Record Platform : Type := {
  serve_early : option (result unit);
  serve_cancelled : result unit;
  assign : Z -> Z -> result Session
}.

Inductive ServicePc : Type :=
| SvcCreated                 (* scheduled by [create_task], not yet run *)
| SvcRunning
| SvcEnded (o : Outcome).

Inductive MainResult : Type := Returned | Raised.

(** Where [main] is suspended. *)
Inductive MainPc : Type :=
| InnerExit                  (* line 129: [inner_tg] waits for its tasks *)
| AwaitService               (* line 137: [await task] *)
| MainEnded (r : MainResult).

(** The task of one [wait_and_work(debate_id)] call. *)
Record Unit : Type := {
  debate_id : Z;
  repetition : Z;
  assigned : result Session;
  pc : UnitPc;
  cancel_requested : bool;
  trace : list Event
}.

(** Who did what, in the order of the event loop. *)
Inductive Stamp : Type :=
| ServiceSpawned
| UnitSpawned (i : nat)
| UnitRan (i : nat)
| UnitDone (i : nat) (o : Outcome)
| GroupAborted
| CancelRequested
| ServiceRan
| ServiceDone (o : Outcome)
| MainDone (r : MainResult).

Record State : Type := {
  main_pc : MainPc;
  service : ServicePc;
  service_cancel_requested : bool;
  semaphore : nat;
  aborting : bool;
  units : list Unit;
  history : list Stamp
}.

(** The callback the event loop picks next. *)
Inductive Choice : Type :=
| PickMain
| PickService
| PickUnit (i : nat)
| PickAbort.

(** [Semaphore(12)], line 123. *)
Definition CAPACITY : nat := 12.

(** [range(a, b)] *)
Definition py_range (a b : Z) : list Z := seqZ a (b - a).

(** [acquire()] takes a permit, [release()] gives one back. *)
Definition sem_apply (v : nat) (e : Event) : nat :=
  match e with
  | Acquire => pred v
  | Release => S v
  | _ => v
  end.

Definition sem_after (evs : list Event) (v : nat) : nat :=
  fold_left sem_apply evs v.

Definition unit_ended (u : Unit) : bool := is_ended (pc u).

Definition unit_failed (u : Unit) : bool :=
  match pc u with Ended (Failed _ _) => true | _ => false end.

Definition service_ended (s : ServicePc) : bool :=
  match s with SvcEnded _ => true | _ => false end.

Definition service_failed (s : ServicePc) : bool :=
  match s with SvcEnded (Failed _ _) => true | _ => false end.

(** [await task] on a task that is done. *)
Definition task_result (o : Outcome) : result unit :=
  match o with
  | Finished => Ret ()
  | Failed cls msg => Raise (Exc cls msg)
  | Cancelled => Raise CancelledError
  end.

(** Lines 136-139. *)
Definition await_service (o : Outcome) : result unit :=
  match task_result o with
  | Raise CancelledError => Ret ()
  | r => r
  end.

(** How [main] ends once the service task is done.  An exception of
    [await task] leaves the [finally] block; otherwise the
    [ExceptionGroup] [inner_tg] raised for its failed tasks, if any, goes
    on.  (A failed service task also makes the outer group raise.) *)
Definition main_exit (us : list Unit) (o : Outcome) : MainResult :=
  match await_service o with
  | Raise _ => Raised
  | Ret _ => if existsb unit_failed us then Raised else Returned
  end.

Section Batch.

Variable platform : Platform.
Variable args : ScriptArgs.

(** Lines 130-132: the pairs the two loops go through. *)
Definition spawn_list : list (Z * Z) :=
  flat_map (fun id => map (fun r => (id, r)) (py_range 0 (repeat args)))
    (py_range (start args) (stop args)).

Definition spawn (ir : Z * Z) : Unit :=
  {| debate_id := fst ir; repetition := snd ir;
     assigned := assign platform (fst ir) (snd ir);
     pc := AtGate; cancel_requested := false; trace := [] |}.

(** Lines 119-132: the tasks are created, none has run yet. *)
Definition created : State :=
  {| main_pc := InnerExit; service := SvcCreated;
     service_cancel_requested := false; semaphore := CAPACITY;
     aborting := false; units := map spawn spawn_list;
     history := ServiceSpawned
                :: map UnitSpawned (seq 0 (length spawn_list)) |}.

(** Lines 133-137: [task.cancel()], which does nothing to a task that is
    done, then [await task]. *)
Definition request_stop (st : State) : State :=
  {| main_pc := AwaitService; service := service st;
     service_cancel_requested := negb (service_ended (service st));
     semaphore := semaphore st; aborting := aborting st; units := units st;
     history := history st ++ [CancelRequested] |}.

(** [main] runs until its first suspension.  A group without tasks does
    not suspend at its exit, so [main] then goes on to line 137. *)
Definition init : State :=
  match spawn_list with
  | [] => request_stop created
  | _ => created
  end.

(** A unit task runs from its [await] to the next one.  The loop runs its
    callbacks in the order they were scheduled, and the service task was
    created first: no unit task runs before the service task had its first
    turn. *)
Definition run_unit (i : nat) (st : State) : option State :=
  _ ← (match service st with SvcCreated => None | _ => Some () end);
  u ← units st !! i;
  sl ← resume args (0 <? semaphore st)%nat (cancel_requested u)
         (assigned u) (debate_id u) (pc u);
  let u' := {| debate_id := debate_id u; repetition := repetition u;
               assigned := assigned u; pc := snd sl;
               cancel_requested := false;
               trace := trace u ++ fst sl |} in
  Some {| main_pc := main_pc st; service := service st;
          service_cancel_requested := service_cancel_requested st;
          semaphore := sem_after (fst sl) (semaphore st);
          aborting := aborting st;
          units := <[i := u']> (units st);
          history := history st ++ UnitRan i ::
                     match snd sl with
                     | Ended o => [UnitDone i o]
                     | _ => []
                     end |}.

Definition request_cancel (u : Unit) : Unit :=
  if unit_ended u then u
  else {| debate_id := debate_id u; repetition := repetition u;
          assigned := assigned u; pc := pc u; cancel_requested := true;
          trace := trace u |}.

(** [TaskGroup._abort] of [inner_tg]: once, when a task of the group has
    failed, or when [main] is cancelled at the group's exit because the
    service task, a child of the outer group, has failed.  Every task of
    the group that is not done is cancelled. *)
Definition abort (st : State) : option State :=
  match main_pc st with
  | InnerExit =>
      if negb (aborting st)
         && (existsb unit_failed (units st) || service_failed (service st))
      then Some {| main_pc := main_pc st; service := service st;
                   service_cancel_requested := service_cancel_requested st;
                   semaphore := semaphore st; aborting := true;
                   units := map request_cancel (units st);
                   history := history st ++ [GroupAborted] |}
      else None
  | _ => None
  end.

Definition set_service (s : ServicePc) (st : State) : State :=
  {| main_pc := main_pc st; service := s;
     service_cancel_requested := false;
     semaphore := semaphore st; aborting := aborting st; units := units st;
     history := history st ++ match s with
                              | SvcEnded o => [ServiceRan; ServiceDone o]
                              | _ => [ServiceRan]
                              end |}.

(** The task of [platform.serve()].  Cancelled before its first step, the
    coroutine never runs; cancelled later, it ends as [serve_cancelled]
    says; left alone, it serves until it ends by itself, if ever. *)
Definition run_service (st : State) : option State :=
  match service st with
  | SvcCreated =>
      Some (set_service (if service_cancel_requested st
                         then SvcEnded Cancelled else SvcRunning) st)
  | SvcRunning =>
      if service_cancel_requested st
      then Some (set_service
                   (SvcEnded (outcome_of (serve_cancelled platform))) st)
      else match serve_early platform with
           | Some r => Some (set_service (SvcEnded (outcome_of r)) st)
           | None => None
           end
  | SvcEnded _ => None
  end.

(** [main] resumes: at the exit of [inner_tg] once every task of the group
    is done, at [await task] once the service task is done. *)
Definition run_main (st : State) : option State :=
  match main_pc st with
  | InnerExit =>
      if forallb unit_ended (units st) then Some (request_stop st) else None
  | AwaitService =>
      match service st with
      | SvcEnded o =>
          let r := main_exit (units st) o in
          Some {| main_pc := MainEnded r; service := service st;
                  service_cancel_requested := service_cancel_requested st;
                  semaphore := semaphore st; aborting := aborting st;
                  units := units st;
                  history := history st ++ [MainDone r] |}
      | _ => None
      end
  | MainEnded _ => None
  end.

Definition step (c : Choice) (st : State) : option State :=
  match c with
  | PickMain => run_main st
  | PickService => run_service st
  | PickUnit i => run_unit i st
  | PickAbort => abort st
  end.

(** A schedule is the list of the event loop's choices; it is admissible
    when each choice can run. *)
Fixpoint exec (sched : list Choice) (st : State) : option State :=
  match sched with
  | [] => Some st
  | c :: sched' =>
      match step c st with
      | Some st' => exec sched' st'
      | None => None
      end
  end.

(** Nothing can run any more. *)
Definition quiescent (st : State) : Prop := forall c, step c st = None.

End Batch.

(** ** Counting events in a trace *)

Definition is_acquire (e : Event) : bool :=
  match e with Acquire => true | _ => false end.
Definition is_release (e : Event) : bool :=
  match e with Release => true | _ => false end.
Definition is_start_call (e : Event) : bool :=
  match e with CallStartDebate => true | _ => false end.
Definition is_reset_call (e : Event) : bool :=
  match e with CallResetDebate => true | _ => false end.

Definition count (p : Event -> bool) (tr : list Event) : nat :=
  length (List.filter p tr).

Definition b2n (b : bool) : nat := if b then 1%nat else 0%nat.

(** ** What a trace tells about the state of its task *)

Definition unit_inv (tr : list Event) (pc : UnitPc) : Prop :=
  count is_acquire tr = (count is_release tr + b2n (holding pc))%nat
  /\ (count is_acquire tr <= 1)%nat
  /\ match pc with
     | AtGate => tr = []
     | AtAssign | AtUpdateConfig _ | AtSelectDebate _ _ =>
         count is_start_call tr = 0%nat /\ count is_reset_call tr = 0%nat
     | AtStartDebate _ _ | AtSaveRecord _ =>
         count is_start_call tr = 1%nat /\ count is_reset_call tr = 0%nat
     | AtResetDebate _ _ =>
         count is_start_call tr = 1%nat /\ count is_reset_call tr = 1%nat
         /\ exists tr1, tr = tr1 ++ [CallResetDebate]
     | Ended _ =>
         (count is_start_call tr = 0%nat /\ count is_reset_call tr = 0%nat)
         \/ (count is_start_call tr = 1%nat /\ count is_reset_call tr = 1%nat
             /\ exists tr1, tr = tr1 ++ [CallResetDebate; Release])
     end.


(** ** Runs of one unit *)

(** A unit under any scheduler: each resumption comes with whether a permit
    is free and whether the task was cancelled since it last ran. *)
Fixpoint unit_exec (args : ScriptArgs) (assigned : result Session)
    (debate_id : Z) (script : list (bool * bool)) (tr : list Event)
    (pc : UnitPc) : option (list Event * UnitPc) :=
  match script with
  | [] => Some (tr, pc)
  | (free, cancelled) :: script' =>
      match resume args free cancelled assigned debate_id pc with
      | Some sl =>
          unit_exec args assigned debate_id script' (tr ++ fst sl) (snd sl)
      | None => None
      end
  end.

(** The title [work] prints when lines 33-77 go through: the configuration
    is edited and applied, the debate is selected and [cur_info] is set. *)
Definition title_of (args : ScriptArgs) (session : Session) (debate_id : Z)
  : option string :=
  match configure args (config_data session), update_config session,
        py_index (motions session) debate_id with
  | Ret _, Ret _, Ret m =>
      match select_debate session (fst m) with
      | Ret (Some info) => Some (fst m +:+ " --- " +:+ motion info)
      | _ => None
      end
  | _, _, _ => None
  end.

Fixpoint has_colon (s : string) : bool :=
  match s with
  | EmptyString => false
  | String c s' => Ascii.eqb c ":" || has_colon s'
  end.

(** ** Sample inputs *)

Definition ex_config : pyval :=
  PDict [("arena", PDict []);
         ("model", PDict [("chat_config",
            PDict [("test_config", PDict []); ("openai_config", PDict [])])]);
         ("panel", PDict [("judge_config", PDict []);
                          ("panel_config", PDict [])]);
         ("manager", PDict [("dimensions", PList [])]);
         ("recorder", PDict [])].

Definition ex_args (first last times : Z) : ScriptArgs :=
  {| preset := "demo"; framework := Debatrix;
     start := first; stop := last; repeat := times;
     dimensions := None; should_summarize := true; llm := LlmTest;
     debug_server := false; root_dir := "." |}.

Definition ex_verdict : Verdict :=
  {| debaters_verdict := [ {| debater_name := "pro"; score := 7 |};
                           {| debater_name := "con"; score := 5 |} ];
     winner_verdict := {| winner := "pro" |} |}.

Definition ex_result : DebateResult :=
  {| final_verdict := Some ex_verdict;
     dimensional_verdicts := [ {| verdict := ex_verdict |} ] |}.

(** A session over three motions, given by the answers of its methods. *)
Definition ex_session (upd : result unit)
    (sel : result (option DebateInfo)) (run : result (option DebateResult))
    (sav : result string) : Session :=
  {| config_data := ex_config;
     motions := [("m0", "a"); ("m1", "b"); ("m2", "c")];
     update_config := upd;
     select_debate := fun _ => sel;
     start_debate := run;
     save_record := sav;
     reset_debate := Ret () |}.

Definition ex_info : result (option DebateInfo) :=
  Ret (Some {| motion := "tea" |}).

Definition ex_boom : exn := Exc "RuntimeError" "boom".

(** ** What holds in every state of the batch *)

(** The number of tasks that hold a permit. *)
Definition holders (us : list Unit) : nat :=
  length (List.filter (fun u => holding (pc u)) us).

(** What a unit task is created with. *)
Definition static (u : Unit) : Z * Z * result Session :=
  (debate_id u, repetition u, assigned u).

Definition is_unit_ran (s : Stamp) : bool :=
  match s with UnitRan _ => true | _ => false end.

Section Invariant.

Variable platform : Platform.
Variable args : ScriptArgs.

(** The history: the service task is created first and has its first turn
    before any unit task runs; the cancellation of the service task is
    requested once, when [main] leaves the inner group, after every unit
    task is done and before anything else happens. *)
Record hist_inv (st : State) : Prop := {
  hist_first : exists h, history st = ServiceSpawned :: h;
  hist_done : forall i u o,
    units st !! i = Some u -> pc u = Ended o -> In (UnitDone i o) (history st);
  hist_unstarted :
    service st = SvcCreated ->
    forallb (fun s => negb (is_unit_ran s)) (history st) = true;
  hist_started :
    service st <> SvcCreated ->
    exists h0 h,
      history st = h0 ++ ServiceRan :: h
      /\ forallb (fun s => negb (is_unit_ran s)) h0 = true;
  hist_before : main_pc st = InnerExit -> ~ In CancelRequested (history st);
  hist_after : main_pc st <> InnerExit ->
    exists h1 h2,
      history st = h1 ++ CancelRequested :: h2
      /\ ~ In CancelRequested h1 /\ ~ In CancelRequested h2
      /\ (forall i u, units st !! i = Some u -> exists o, In (UnitDone i o) h1)
      /\ forallb (fun s => negb (is_unit_ran s)) h2 = true
}.

Record Inv (st : State) : Prop := {
  inv_static :
    map static (units st) = map static (map (spawn platform) (spawn_list args));
  inv_reach : Forall (fun u =>
    exists script,
      unit_exec args (assigned u) (debate_id u) script [] AtGate
      = Some (trace u, pc u)) (units st);
  inv_sem : (semaphore st + holders (units st) = CAPACITY)%nat;
  inv_drained :
    main_pc st <> InnerExit -> forallb unit_ended (units st) = true;
  inv_cancel :
    service_cancel_requested st = true ->
    main_pc st = AwaitService /\ service_ended (service st) = false;
  inv_await :
    main_pc st = AwaitService -> service_ended (service st) = false ->
    service_cancel_requested st = true;
  inv_result : forall r,
    main_pc st = MainEnded r ->
    exists o, service st = SvcEnded o /\ r = main_exit (units st) o;
  inv_hist : hist_inv st
}.

End Invariant.

(** The permits a trace has taken and not given back. *)
Definition outstanding (tr : list Event) : nat :=
  (count is_acquire tr - count is_release tr)%nat.

(** The permits out, over all the units of the batch. *)
Definition slots_out (us : list Unit) : nat :=
  list_sum (map (fun u => outstanding (trace u)) us).

(** A platform whose server runs until it is cancelled and then
    acknowledges the cancellation. *)
Definition ex_platform (sessions : Z -> Z -> result Session) : Platform :=
  {| serve_early := None; serve_cancelled := Raise CancelledError;
     assign := sessions |}.

Definition ex_good : Session :=
  ex_session (Ret ()) ex_info (Ret (Some ex_result)) (Ret "out.json").

(** Every unit from [i] up to [j - 1] runs once, in turn. *)
Definition ex_round (i j : nat) : list Choice :=
  map PickUnit (seq i (j - i)).

(** ** Progress of the batch *)

(** How many suspensions a unit task may still go through. *)
Definition rank (pc : UnitPc) : nat :=
  match pc with
  | AtGate => 7
  | AtAssign => 6
  | AtUpdateConfig _ => 5
  | AtSelectDebate _ _ => 4
  | AtStartDebate _ _ => 3
  | AtSaveRecord _ => 2
  | AtResetDebate _ _ => 1
  | Ended _ => 0
  end.

Definition service_rank (s : ServicePc) : nat :=
  match s with SvcCreated => 2 | SvcRunning => 1 | SvcEnded _ => 0 end.

Definition main_rank (m : MainPc) : nat :=
  match m with InnerExit => 2 | AwaitService => 1 | MainEnded _ => 0 end.

(** A bound on the number of choices still to come. *)
Definition measure (st : State) : nat :=
  (main_rank (main_pc st) + service_rank (service st)
   + b2n (negb (aborting st))
   + list_sum (map (fun u => rank (pc u)) (units st)))%nat.

(** ** Units whose errors stay inside [work] *)

Definition not_cancelled {A} (r : result A) : bool :=
  match r with Raise CancelledError => false | _ => true end.

(** The answers of the platform to a unit are such that nothing can leave
    [work] on its own: a session is assigned, lines 33-77 go through, the
    run and the persistence return or raise an [Exception], and the reset
    returns. *)
Definition contained (args : ScriptArgs) (a : result Session) (debate_id : Z)
  : bool :=
  match a with
  | Raise _ => false
  | Ret s =>
      match title_of args s debate_id with Some _ => true | None => false end
      && not_cancelled (start_debate s) && not_cancelled (save_record s)
      && match reset_debate s with Ret _ => true | Raise _ => false end
  end.

(** The server does not fail: neither by itself nor when cancelled. *)
Definition service_safe (p : Platform) : bool :=
  match serve_early p with Some (Raise (Exc _ _)) => false | _ => true end
  && match serve_cancelled p with Raise (Exc _ _) => false | _ => true end.

(** No cancellation is around and every unit is where it would be if it
    ran alone. *)
Definition calm_unit (args : ScriptArgs) (u : Unit) : Prop :=
  cancel_requested u = false
  /\ (exists k,
        drive args k (assigned u) (debate_id u) [] AtGate = (trace u, pc u))
  /\ forall o, pc u = Ended o -> o = Finished.

Record Calm (args : ScriptArgs) (st : State) : Prop := {
  calm_group : aborting st = false;
  calm_units : Forall (calm_unit args) (units st);
  calm_service : service_failed (service st) = false
}.

Definition ex_failing_run : Session :=
  ex_session (Ret ()) ex_info (Raise ex_boom) (Ret "out.json").

Definition ex_failing_config : Session :=
  ex_session (Raise ex_boom) ex_info (Ret (Some ex_result)) (Ret "out.json").

Definition ex_cancelled_run : Session :=
  ex_session (Ret ()) ex_info (Ret None) (Ret "out.json").

(** One debate judged five times; the run of the third unit raises. *)
Definition ex_one_run_fails : Platform :=
  ex_platform (fun _ r => Ret (if r =? 2 then ex_failing_run else ex_good)).

(** The five units take turns until they are done, then [main] stops the
    server. *)
Definition ex_drain : list Choice :=
  PickService :: concat (replicate 6 (ex_round 0 5))
  ++ map PickUnit [0; 1; 3; 4]%nat.

Definition ex_full_run : list Choice :=
  ex_drain ++ [PickMain; PickService; PickMain].

(** Two debates; applying the configuration fails for the first. *)
Definition ex_config_fails : Platform :=
  ex_platform (fun id _ =>
                 Ret (if id =? 0 then ex_failing_config else ex_good)).

(** Two debates; no session can be assigned to the first. *)
Definition ex_assign_fails : Platform :=
  ex_platform (fun id _ => if id =? 0 then Raise ex_boom else Ret ex_good).

(** Both units reach [update_config]; the first fails there, the group
    aborts, the second is cancelled; [main] stops the server. *)
Definition ex_aborted_run : list Choice :=
  [PickService; PickUnit 0; PickUnit 1; PickUnit 0; PickUnit 1; PickUnit 0;
   PickAbort; PickUnit 1; PickMain; PickService; PickMain].

(** What is left of a state when only the ends and the printed lines
    matter. *)
Definition summary (st : State)
  : MainPc * ServicePc * list (UnitPc * list string) :=
  (main_pc st, service st,
   map (fun u => (pc u, output (trace u))) (units st)).

(** ** Reading the configuration *)

(** [c[k1][k2]...] *)
Fixpoint getpath (path : list string) (c : pyval) : result pyval :=
  match path with
  | [] => Ret c
  | k :: rest => sub ← getitem k c; getpath rest sub
  end.

(** An edit that leaves [c[path]], as far as the edit goes through. *)
Definition keeps (path : list string) (f : pyval -> result pyval) : Prop :=
  forall c c', f c = Ret c' -> getpath path c' = getpath path c.

(** An edit after which [c[path]] is [v]. *)
Definition sets (path : list string) (v : pyval) (f : pyval -> result pyval)
  : Prop :=
  forall c c', f c = Ret c' -> getpath path c' = Ret v.

(** The exceptions of dictionary access. *)
Definition lookup_error {A} (r : result A) : Prop :=
  match r with
  | Ret _ => True
  | Raise (Exc cls _) => cls = "KeyError" \/ cls = "TypeError"
  | Raise CancelledError => False
  end.
(** * Properties *)

Lemma count_app p tr1 tr2 :
  count p (tr1 ++ tr2) = (count p tr1 + count p tr2)%nat.
Proof. unfold count. now rewrite List.filter_app, length_app. Qed.

Lemma count_cons p e tr :
  count p (e :: tr) = (b2n (p e) + count p tr)%nat.
Proof. unfold count. simpl. now destruct (p e). Qed.

Lemma count_nil p : count p [] = 0%nat.
Proof. reflexivity. Qed.

Lemma count_prints p lines :
  (forall line, p (Print line) = false) -> count p (map Print lines) = 0%nat.
Proof.
  intros Hp. induction lines as [|l lines IH]; [reflexivity|].
  simpl. now rewrite count_cons, Hp, IH.
Qed.

Lemma count_pos_In p tr :
  (0 < count p tr)%nat -> exists e, In e tr /\ p e = true.
Proof.
  induction tr as [|e tr IH]; [rewrite count_nil; intros H; exfalso; lia|].
  rewrite count_cons. destruct (p e) eqn:He.
  - intros _. exists e. split; [now left | assumption].
  - simpl. intros H. destruct (IH H) as (e' & Hin & Hp).
    exists e'. split; [now right | assumption].
Qed.

Lemma count_In p e tr : In e tr -> p e = true -> (0 < count p tr)%nat.
Proof.
  induction tr as [|e' tr IH]; simpl; [tauto|].
  rewrite count_cons. intros [->|Hin] Hp.
  - rewrite Hp. simpl. lia.
  - specialize (IH Hin Hp). lia.
Qed.

Ltac count_simpl :=
  repeat (rewrite ?count_app, ?count_cons, ?count_nil, ?count_prints
            by reflexivity);
  simpl.

Lemma unit_inv_start : unit_inv [] AtGate.
Proof. unfold unit_inv, count; simpl. repeat split; lia. Qed.

Lemma snoc_two {A} (l : list A) a b : l ++ [a; b] = (l ++ [a]) ++ [b].
Proof. now rewrite <- app_assoc. Qed.

Lemma snoc_three {A} (l : list A) a b c :
  l ++ [a; b; c] = (l ++ [a; b]) ++ [c].
Proof. now rewrite <- app_assoc. Qed.

Ltac trace_split :=
  first [ eexists; rewrite <- app_assoc; reflexivity
        | eexists; reflexivity
        | eexists; apply snoc_two
        | eexists; apply snoc_three ].

Lemma resume_inv args free cancelled a id tr pc sl :
  unit_inv tr pc ->
  resume args free cancelled a id pc = Some sl ->
  unit_inv (tr ++ fst sl) (snd sl).
Proof.
  intros (Hsem & Hacq & Hpc) Hres.
  destruct pc; simpl in Hres; unfold await, leave, work_enter, work_select,
    work_start, work_report, work_handle, work_saved, work_exit in Hres;
    repeat case_match; simplify_eq; simpl in *.
  all: repeat match goal with
              | H : _ /\ _ |- _ => destruct H
              | H : ex _ |- _ => destruct H
              end; subst.
  all: unfold unit_inv; simpl holding; cbv iota beta.
  all: repeat (rewrite ?count_app, ?count_cons, ?count_nil, ?count_prints
                 in * by reflexivity); simpl in *.
  all: split; [lia | split; [lia | ]].
  all: first [ split; lia
             | split; [lia | split; [lia | trace_split]]
             | left; split; lia
             | right; split; [lia | split; [lia | trace_split]] ].
Qed.

Lemma unit_exec_inv args a id script tr pc tr' pc' :
  unit_inv tr pc ->
  unit_exec args a id script tr pc = Some (tr', pc') ->
  unit_inv tr' pc'.
Proof.
  revert tr pc. induction script as [|[free c] script IH]; simpl; intros tr pc.
  - intros H [= <- <-]. exact H.
  - destruct (resume args free c a id pc) as [sl|] eqn:Hres; [|discriminate].
    intros H. apply IH. eapply resume_inv; eauto.
Qed.

(** C3 (amended): a work unit that has reached the run step
    ([session.start_debate()] was called) calls [session.reset_debate()]
    exactly once before its task ends, whatever comes out of the run, the
    report and the persistence: a value, an exception or a cancellation.
    The call is the last thing the unit does before it gives its permit
    back.  A unit that ends before the run step never calls it; no unit
    calls it twice. *)
Theorem reset_once_after_run args assigned debate_id script tr pc :
  unit_exec args assigned debate_id script [] AtGate = Some (tr, pc) ->
  (count is_reset_call tr <= 1)%nat /\
  forall o, pc = Ended o ->
    (In CallStartDebate tr ->
       count is_reset_call tr = 1%nat /\
       exists tr1, tr = tr1 ++ [CallResetDebate; Release]) /\
    (~ In CallStartDebate tr -> count is_reset_call tr = 0%nat).
Proof.
  intros Hrun.
  pose proof (unit_exec_inv _ _ _ _ _ _ _ _ unit_inv_start Hrun)
    as (_ & _ & Hpc).
  split.
  - destruct pc; try destruct Hpc as [Hpc|Hpc]; subst; try rewrite count_nil;
      lia.
  - intros o ->. destruct Hpc as [(Hs & Hr)|(Hs & Hr & Htr)].
    + split; [|auto]. intros Hin.
      pose proof (count_In is_start_call _ _ Hin eq_refl). lia.
    + split; [auto|]. intros Hnot. exfalso. apply Hnot.
      destruct (count_pos_In is_start_call tr) as (e & Hin & He); [lia|].
      now destruct e.
Qed.

(** The run step is cancelled while the unit awaits it: the reset is still
    called, once, then the permit is released. *)
Lemma reset_once_after_run_witness :
  exists tr,
    unit_exec (ex_args 0 1 1) (Ret ex_cancelled_run) 0
      [(true, false); (true, false); (true, false); (true, false);
       (true, true); (true, false)] [] AtGate
    = Some (tr, Ended Cancelled)
    /\ output tr = ["Start: m0 --- tea" +:+ nl]
    /\ count is_reset_call tr = 1%nat
    /\ exists tr1, tr = tr1 ++ [CallResetDebate; Release].
Proof.
  eexists. split; [vm_compute; reflexivity|]. split; [reflexivity|].
  destruct (reset_once_after_run (ex_args 0 1 1) (Ret ex_cancelled_run) 0
              [(true, false); (true, false); (true, false); (true, false);
               (true, true); (true, false)] _ (Ended Cancelled)
              ltac:(vm_compute; reflexivity)) as (_ & Hended).
  destruct (Hended Cancelled eq_refl) as (Hrun & _).
  apply Hrun. simpl. tauto.
Defined.

(** C3, counterexample: the selection (step 3) raises; the unit ends
    without any call of [session.reset_debate()]. *)
Lemma reset_counterexample :
  let s := ex_session (Ret ()) (Raise ex_boom) (Ret None) (Ret "out.json") in
  let run := wait_and_work (ex_args 0 1 1) (Ret s) 0 in
  snd run = Ended (Failed "RuntimeError" "boom") /\
  In (CallSelectDebate "m0") (fst run) /\
  count is_reset_call (fst run) = 0%nat.
Proof. vm_compute. intuition. Qed.

(** ** The output of a unit that runs undisturbed *)

Lemma output_app tr1 tr2 : output (tr1 ++ tr2) = output tr1 ++ output tr2.
Proof. apply omap_app. Qed.

Lemma output_prints lines : output (map Print lines) = lines.
Proof. induction lines as [|l lines IH]; simpl; [|rewrite IH]; reflexivity. Qed.

Lemma drive_resume args a id k tr pc sl :
  resume args true false a id pc = Some sl ->
  drive args (S k) a id tr pc = drive args k a id (tr ++ fst sl) (snd sl).
Proof. intros H. simpl. rewrite H. now destruct sl. Qed.

(** Up to the [try] block. *)
Lemma wait_and_work_entered args s id title :
  title_of args s id = Some title ->
  exists config code,
    wait_and_work args (Ret s) id =
    drive args 4 (Ret s) id
      [Acquire; CallAssign; CallUpdateConfig config; CallSelectDebate code;
       Print ("Start: " +:+ title +:+ nl); CallStartDebate]
      (AtStartDebate s title).
Proof.
  unfold title_of. intros H.
  destruct (configure args (config_data s)) as [config|] eqn:Hc; [|discriminate].
  destruct (update_config s) as [[]|] eqn:Hu; [|discriminate].
  destruct (py_index (motions s) id) as [m|] eqn:Hm; [|discriminate].
  destruct (select_debate s (fst m)) as [[info|]|] eqn:Hs; try discriminate.
  injection H as <-. exists config, (fst m).
  unfold wait_and_work.
  erewrite drive_resume by reflexivity.
  erewrite drive_resume by (cbn; unfold work_enter; rewrite Hc; reflexivity).
  erewrite drive_resume
    by (cbn; rewrite Hu; unfold work_select; rewrite Hm; reflexivity).
  erewrite drive_resume
    by (cbn; rewrite Hs; unfold work_start; reflexivity).
  reflexivity.
Qed.

(** From the [finally] block on, nothing is printed. *)
Lemma drive_reset_output args a id k tr s pending :
  output (fst (drive args (S (S k)) a id tr (AtResetDebate s pending)))
  = output tr.
Proof.
  cbn. destruct (reset_debate s) as [[]|e]; [destruct pending|];
    cbn; rewrite output_app; cbn; apply app_nil_r.
Qed.

(** What the [try] block prints, by the answers of the run, of the report
    and of the persistence. *)
Lemma try_block_output args a id tr s title :
  output (fst (drive args 4 a id tr (AtStartDebate s title)))
  = output tr
    ++ match start_debate s with
       | Raise (Exc _ msg) => ["Failed: " +:+ msg +:+ nl]
       | Raise CancelledError => []
       | Ret r =>
           ("End: " +:+ title +:+ nl)
           :: match report args r with
              | Raise (Exc _ msg) => ["Failed: " +:+ msg +:+ nl]
              | Raise CancelledError => []
              | Ret lines =>
                  lines
                  ++ match save_record s with
                     | Ret location =>
                         ["Verdict saved at " +:+ location +:+ nl]
                     | Raise (Exc _ msg) => ["Failed: " +:+ msg +:+ nl]
                     | Raise CancelledError => []
                     end
              end
       end.
Proof.
  destruct (start_debate s) as [r|[cls msg|]] eqn:Hrun.
  - destruct (report args r) as [lines|[cls msg|]] eqn:Hrep.
    + erewrite drive_resume
        by (cbn; rewrite Hrun; unfold work_report; rewrite Hrep; reflexivity).
      destruct (save_record s) as [location|[cls msg|]] eqn:Hsave.
      all: erewrite drive_resume by (cbn; rewrite Hsave; reflexivity).
      all: cbn [fst snd work_saved work_handle]; rewrite drive_reset_output.
      all: rewrite !output_app; cbn; rewrite !output_app, output_prints; cbn.
      all: rewrite <- ?app_assoc, ?app_nil_r; reflexivity.
    + erewrite drive_resume
        by (cbn; rewrite Hrun; unfold work_report; rewrite Hrep; reflexivity).
      cbn [fst snd work_handle]. rewrite drive_reset_output.
      rewrite !output_app. reflexivity.
    + erewrite drive_resume
        by (cbn; rewrite Hrun; unfold work_report; rewrite Hrep; reflexivity).
      cbn [fst snd work_handle]. rewrite drive_reset_output.
      rewrite !output_app. reflexivity.
  - erewrite drive_resume by (cbn; rewrite Hrun; reflexivity).
    cbn [fst snd work_handle]. rewrite drive_reset_output.
    rewrite !output_app. reflexivity.
  - erewrite drive_resume by (cbn; rewrite Hrun; reflexivity).
    cbn [fst snd work_handle]. rewrite drive_reset_output.
    rewrite !output_app. cbn. now rewrite app_nil_r.
Qed.

(** C8 (amended): a work unit whose steps 1-3 succeed prints a [Start]
    line first.  When the run step raises an exception, it then prints
    [Failed: <reason>] and nothing else: no [saved at] line.  When the run
    step returns, it prints an [End] line and the report (the summary, or
    the cancelled report), then exactly one of [Verdict saved at
    <location>], when the record was persisted, and [Failed: <reason>],
    when the report or the persistence raised an exception.  After a
    [CancelledError] nothing more is printed. *)
Theorem output_sequence args s debate_id title :
  title_of args s debate_id = Some title ->
  let out := output (fst (wait_and_work args (Ret s) debate_id)) in
  let started := "Start: " +:+ title +:+ nl in
  let ended := "End: " +:+ title +:+ nl in
  match start_debate s with
  | Raise (Exc _ msg) => out = [started; "Failed: " +:+ msg +:+ nl]
  | Raise CancelledError => out = [started]
  | Ret r =>
      match report args r with
      | Raise (Exc _ msg) => out = [started; ended; "Failed: " +:+ msg +:+ nl]
      | Raise CancelledError => out = [started; ended]
      | Ret lines =>
          match save_record s with
          | Ret location =>
              out = started :: ended :: lines
                    ++ ["Verdict saved at " +:+ location +:+ nl]
          | Raise (Exc _ msg) =>
              out = started :: ended :: lines ++ ["Failed: " +:+ msg +:+ nl]
          | Raise CancelledError => out = started :: ended :: lines
          end
      end
  end.
Proof.
  intros H. destruct (wait_and_work_entered _ _ _ _ H) as (config & code & ->).
  cbv zeta. rewrite try_block_output.
  change (output [Acquire; CallAssign; CallUpdateConfig config;
                  CallSelectDebate code; Print ("Start: " +:+ title +:+ nl);
                  CallStartDebate])
    with ["Start: " +:+ title +:+ nl].
  destruct (start_debate s) as [r|[cls msg|]]; [|reflexivity|reflexivity].
  destruct (report args r) as [lines|[cls msg|]]; [|reflexivity|reflexivity].
  destruct (save_record s) as [location|[cls msg|]]; try reflexivity.
  cbn. now rewrite app_nil_r.
Qed.

Lemma output_sequence_witness :
  output (fst (wait_and_work (ex_args 0 1 1)
                 (Ret (ex_session (Ret ()) ex_info (Ret (Some ex_result))
                         (Ret "out.json"))) 0))
  = ["Start: m0 --- tea" +:+ nl; "End: m0 --- tea" +:+ nl;
     "pro: 7"; "con: 5"; "Winner: pro" +:+ nl;
     "Verdict saved at out.json" +:+ nl].
Proof.
  exact (output_sequence (ex_args 0 1 1)
           (ex_session (Ret ()) ex_info (Ret (Some ex_result))
              (Ret "out.json")) 0 "m0 --- tea" eq_refl).
Defined.

(** C8, counterexample: the run step raises; the unit prints its [Start]
    and [Failed] lines and no [saved at] line. *)
Lemma output_sequence_counterexample :
  let out := output (fst (wait_and_work (ex_args 0 1 1)
                            (Ret (ex_session (Ret ()) ex_info (Raise ex_boom)
                                    (Ret "out.json"))) 0)) in
  out = ["Start: m0 --- tea" +:+ nl; "Failed: boom" +:+ nl] /\
  ~ exists location, In ("Verdict saved at " +:+ location +:+ nl) out.
Proof.
  split; [reflexivity|]. intros (location & [H|[H|[]]]); discriminate H.
Qed.

(** ** The cancelled report and the other lines *)

Lemma has_colon_app a b : has_colon (a +:+ b) = has_colon a || has_colon b.
Proof.
  induction a as [|c a IH]; simpl; [reflexivity|].
  now rewrite IH, orb_assoc.
Qed.

Lemma summary_line_colon name rest : has_colon (name +:+ ": " +:+ rest) = true.
Proof. rewrite !has_colon_app. simpl. apply orb_true_r. Qed.

Lemma report_lines_colon args r lines :
  report args (Some r) = Ret lines ->
  Forall (fun line => has_colon line = true) lines.
Proof.
  unfold report, report_summary, report_dimensions.
  intros H. repeat case_match; simplify_eq.
  all: apply Forall_app; split;
    [apply Forall_map, Forall_forall; intros; apply summary_line_colon
    | repeat constructor].
Qed.

(** C7: when the run step returns [None], the unit prints, after the
    [Start] and [End] lines, the line [Debate cancelled.], followed only by
    the outcome of the persistence; no summary and, unless the persistence
    itself fails, no [Failed] line.  That line is printed in no other case:
    neither when the run returns a result nor when it raises. *)
Theorem cancelled_run_reported args s debate_id title :
  title_of args s debate_id = Some title ->
  let out := output (fst (wait_and_work args (Ret s) debate_id)) in
  match start_debate s with
  | Ret None =>
      out = ["Start: " +:+ title +:+ nl; "End: " +:+ title +:+ nl;
             "Debate cancelled." +:+ nl]
            ++ match save_record s with
               | Ret location => ["Verdict saved at " +:+ location +:+ nl]
               | Raise (Exc _ msg) => ["Failed: " +:+ msg +:+ nl]
               | Raise CancelledError => []
               end
  | _ => ~ In ("Debate cancelled." +:+ nl) out
  end.
Proof.
  intros H out. unfold out. clear out.
  destruct (wait_and_work_entered _ _ _ _ H) as (config & code & ->).
  rewrite try_block_output.
  change (output [Acquire; CallAssign; CallUpdateConfig config;
                  CallSelectDebate code; Print ("Start: " +:+ title +:+ nl);
                  CallStartDebate])
    with ["Start: " +:+ title +:+ nl].
  destruct (start_debate s) as [[r|]|[cls msg|]].
  - destruct (report args (Some r)) as [lines|[cls msg|]] eqn:Hrep.
    + pose proof (report_lines_colon _ _ _ Hrep) as Hcolon.
      assert (~ In ("Debate cancelled." +:+ nl) lines) as Hlines.
      { intros Hin. rewrite Forall_forall in Hcolon.
        apply list_elem_of_In, Hcolon in Hin. discriminate Hin. }
      destruct (save_record s) as [location|[cls msg|]].
      all: simpl; rewrite ?in_app_iff; simpl.
      all: intros [E|[E|Hin]]; try discriminate E.
      all: try (destruct Hin as [Hin|[E|[]]]; try discriminate E).
      all: tauto.
    + intros [E|[E|[E|[]]]]; discriminate E.
    + intros [E|[E|[]]]; discriminate E.
  - destruct (save_record s) as [location|[cls msg|]]; reflexivity.
  - intros [E|[E|[]]]; discriminate E.
  - intros [E|[]]; discriminate E.
Qed.

(** ** The semaphore *)

Lemma sem_after_app evs1 evs2 v :
  sem_after (evs1 ++ evs2) v = sem_after evs2 (sem_after evs1 v).
Proof. apply fold_left_app. Qed.

Lemma sem_after_prints lines v : sem_after (map Print lines) v = v.
Proof. induction lines as [|l lines IH]; simpl; auto. Qed.

(** A slice takes a permit when the task enters the gate and gives it back
    when the task ends. *)
Lemma resume_sem args free cancelled a id pc sl v :
  resume args free cancelled a id pc = Some sl ->
  free = (0 <? v)%nat ->
  (sem_after (fst sl) v + b2n (holding (snd sl)) = v + b2n (holding pc))%nat.
Proof.
  intros Hres Hfree.
  destruct pc; simpl in Hres; unfold await, leave, work_enter, work_select,
    work_start, work_report, work_handle, work_saved, work_exit in Hres;
    repeat case_match; simplify_eq; simpl;
    rewrite ?sem_after_app, ?sem_after_prints; simpl; try lia.
  symmetry in Hfree. apply Nat.ltb_lt in Hfree. lia.
Qed.

Lemma holders_insert us i u u' :
  us !! i = Some u ->
  (holders (<[i := u']> us) + b2n (holding (pc u))
   = holders us + b2n (holding (pc u')))%nat.
Proof.
  unfold holders. revert i. induction us as [|x us IH]; intros [|i] H;
    simpl in *; try discriminate.
  - injection H as ->. destruct (holding (pc u)), (holding (pc u')); simpl; lia.
  - specialize (IH _ H). destruct (holding (pc x)); simpl; lia.
Qed.

Lemma holders_request_cancel us : holders (map request_cancel us) = holders us.
Proof.
  unfold holders. induction us as [|x us IH]; simpl; [reflexivity|].
  replace (holding (pc (request_cancel x))) with (holding (pc x))
    by (unfold request_cancel; now destruct (unit_ended x)).
  destruct (holding (pc x)); simpl; now rewrite IH.
Qed.

Lemma unit_exec_snoc args a id script tr0 pc0 tr pc free c sl :
  unit_exec args a id script tr0 pc0 = Some (tr, pc) ->
  resume args free c a id pc = Some sl ->
  unit_exec args a id (script ++ [(free, c)]) tr0 pc0
  = Some (tr ++ fst sl, snd sl).
Proof.
  revert tr0 pc0. induction script as [|[f c'] script IH]; simpl; intros tr0 pc0.
  - intros [= -> ->] ->. reflexivity.
  - destruct (resume args f c' a id pc0); [|discriminate]. apply IH.
Qed.

(** ** The invariant of the batch *)

Lemma forallb_lookup {A} (f : A -> bool) (l : list A) i x :
  forallb f l = true -> l !! i = Some x -> f x = true.
Proof.
  intros Hall Hi. rewrite forallb_forall in Hall.
  apply Hall, list_elem_of_In, list_elem_of_lookup. eauto.
Qed.

Lemma resume_ended args free c a id pc :
  is_ended pc = true -> resume args free c a id pc = None.
Proof. now destruct pc. Qed.

Lemma map_static_insert us i u u' :
  us !! i = Some u -> static u' = static u ->
  map static (<[i := u']> us) = map static us.
Proof.
  revert i. induction us as [|x us IH]; intros [|i] H E; simpl in *;
    try discriminate.
  - injection H as ->. now rewrite E.
  - now rewrite (IH _ H E).
Qed.

Lemma lookup_map_request_cancel us i u' :
  map request_cancel us !! i = Some u' ->
  exists u, us !! i = Some u /\ u' = request_cancel u.
Proof.
  revert i. induction us as [|x us IH]; intros [|i] H; simpl in *;
    try discriminate.
  - injection H as <-. eauto.
  - apply IH, H.
Qed.

Lemma request_cancel_pc u : pc (request_cancel u) = pc u.
Proof. unfold request_cancel. now destruct (unit_ended u). Qed.

Lemma request_cancel_trace u : trace (request_cancel u) = trace u.
Proof. unfold request_cancel. now destruct (unit_ended u). Qed.

Lemma request_cancel_static u : static (request_cancel u) = static u.
Proof. unfold request_cancel. now destruct (unit_ended u). Qed.

Lemma started_app (hist extra : list Stamp) :
  (exists h0 h, hist = h0 ++ ServiceRan :: h
                /\ forallb (fun s => negb (is_unit_ran s)) h0 = true) ->
  exists h0 h, hist ++ extra = h0 ++ ServiceRan :: h
               /\ forallb (fun s => negb (is_unit_ran s)) h0 = true.
Proof.
  intros (h0 & h & -> & H). exists h0, (h ++ extra).
  now rewrite <- app_assoc.
Qed.

Lemma unstarted_app (hist extra : list Stamp) :
  forallb (fun s => negb (is_unit_ran s)) hist = true ->
  forallb (fun s => negb (is_unit_ran s)) extra = true ->
  forallb (fun s => negb (is_unit_ran s)) (hist ++ extra) = true.
Proof. intros H1 H2. now rewrite forallb_app, H1, H2. Qed.

Section Invariance.

Variable platform : Platform.
Variable args : ScriptArgs.

Local Abbreviation Inv := (Inv platform args).
Local Abbreviation step := (step platform args).

Lemma run_unit_spec i st st' :
  run_unit args i st = Some st' ->
  exists u sl,
    units st !! i = Some u
    /\ resume args (0 <? semaphore st)%nat (cancel_requested u) (assigned u)
         (debate_id u) (pc u) = Some sl
    /\ main_pc st' = main_pc st /\ service st' = service st
    /\ service_cancel_requested st' = service_cancel_requested st
    /\ semaphore st' = sem_after (fst sl) (semaphore st)
    /\ aborting st' = aborting st
    /\ units st' = <[i := {| debate_id := debate_id u;
                            repetition := repetition u;
                            assigned := assigned u; pc := snd sl;
                            cancel_requested := false;
                            trace := trace u ++ fst sl |}]> (units st)
    /\ history st' = history st ++ UnitRan i ::
                     match snd sl with
                     | Ended o => [UnitDone i o]
                     | _ => []
                     end.
Proof.
  unfold run_unit. intros H.
  destruct (service st); [discriminate| |]; simpl in H.
  all: destruct (units st !! i) as [u|] eqn:Hu; [|discriminate]; simpl in H.
  all: destruct (resume args _ _ _ _ _) as [sl|] eqn:Hres; [|discriminate].
  all: simpl in H; injection H as <-; exists u, sl; simpl; tauto.
Qed.

Lemma run_unit_started i st st' :
  run_unit args i st = Some st' -> service st <> SvcCreated.
Proof. unfold run_unit. intros H E. rewrite E in H. discriminate. Qed.

Lemma not_in_snoc {A} (x : A) l l' : ~ In x l -> ~ In x l' -> ~ In x (l ++ l').
Proof. rewrite in_app_iff. tauto. Qed.

Lemma run_unit_inv i st st' :
  Inv st -> run_unit args i st = Some st' -> Inv st'.
Proof.
  intros HI Hstep.
  destruct (run_unit_spec _ _ _ Hstep)
    as (u & sl & Hu & Hres & Hm & Hs & Hc & Hsem & Ha & Hus & Hh).
  assert (main_pc st = InnerExit) as Hmain.
  { destruct (main_pc st) eqn:E; [reflexivity| |].
    all: rewrite resume_ended in Hres; [discriminate|].
    all: apply (forallb_lookup unit_ended _ _ _
                  (inv_drained _ _ _ HI ltac:(congruence)) Hu). }
  destruct HI as [Hstatic Hreach Hsm Hdr Hcan Haw Hr Hhist].
  split.
  - rewrite Hus. erewrite map_static_insert; eauto.
  - rewrite Hus. apply Forall_insert; [assumption|]. simpl.
    rewrite Forall_lookup in Hreach. destruct (Hreach _ _ Hu) as (script & Hx).
    eexists. eapply unit_exec_snoc; eauto.
  - rewrite Hus, Hsem.
    pose proof (resume_sem _ _ _ _ _ _ _ _ Hres eq_refl) as H1.
    pose proof (holders_insert (units st) i u
      {| debate_id := debate_id u; repetition := repetition u;
         assigned := assigned u; pc := snd sl; cancel_requested := false;
         trace := trace u ++ fst sl |} Hu) as H2.
    simpl in H2. lia.
  - congruence.
  - rewrite Hc, Hm, Hs. assumption.
  - congruence.
  - congruence.
  - destruct Hhist as [Hfirst Hdone Hun Hst Hbefore Hafter]. split.
    + destruct Hfirst as (h & E). rewrite Hh, E. eexists. reflexivity.
    + intros j u0 o Hj Hpc. rewrite Hh, Hus in *. apply in_app_iff.
      destruct (decide (i = j)) as [->|Hne].
      * rewrite list_lookup_insert_eq in Hj
          by (eapply lookup_lt_Some; eauto).
        injection Hj as <-. simpl in Hpc. rewrite Hpc. right. simpl. auto.
      * rewrite list_lookup_insert_ne in Hj by assumption. left. eauto.
    + intros E. rewrite Hs in E.
      now destruct (run_unit_started _ _ _ Hstep).
    + intros _. rewrite Hh. apply started_app, Hst.
      eapply run_unit_started; eauto.
    + intros _. rewrite Hh. apply not_in_snoc; [auto|].
      destruct (snd sl); simpl; intuition discriminate.
    + congruence.
Qed.

Lemma abort_inv st st' : Inv st -> abort st = Some st' -> Inv st'.
Proof.
  unfold abort. intros HI Hstep.
  destruct (main_pc st) eqn:Hmain; try discriminate.
  destruct (negb (aborting st) && _); [|discriminate].
  injection Hstep as <-.
  destruct HI as [Hstatic Hreach Hsm Hdr Hcan Haw Hr Hhist].
  split; simpl.
  - rewrite <- Hstatic. clear. induction (units st) as [|x us IH];
      simpl; [reflexivity|]. now rewrite IH, request_cancel_static.
  - apply Forall_forall. intros u' Hin.
    apply list_elem_of_lookup in Hin as (i & Hi).
    apply lookup_map_request_cancel in Hi as (u & Hu & ->).
    rewrite Forall_lookup in Hreach. specialize (Hreach _ _ Hu).
    rewrite request_cancel_pc, request_cancel_trace.
    unfold request_cancel. now destruct (unit_ended u).
  - now rewrite holders_request_cancel.
  - congruence.
  - rewrite Hmain in Hcan. assumption.
  - discriminate.
  - discriminate.
  - destruct Hhist as [Hfirst Hdone Hun Hst Hbefore Hafter]. split; simpl.
    + destruct Hfirst as (h & E). rewrite E. eexists. reflexivity.
    + intros j u' o Hj Hpc. apply in_app_iff. left.
      apply lookup_map_request_cancel in Hj as (u & Hu & ->).
      rewrite request_cancel_pc in Hpc. eauto.
    + intros E. apply unstarted_app; auto.
    + intros E. apply started_app; auto.
    + intros _. apply not_in_snoc; [auto|]. simpl. intuition discriminate.
    + congruence.
Qed.

Lemma set_service_inv st s :
  Inv st ->
  s <> SvcCreated ->
  service_ended (service st) = false ->
  (service_cancel_requested st = true -> service_ended s = true) ->
  Inv (set_service s st).
Proof.
  intros [Hstatic Hreach Hsm Hdr Hcan Haw Hr Hhist] Hnew Hlive Hstop.
  split; simpl; try assumption.
  - discriminate.
  - intros Hmain Hs. specialize (Haw Hmain Hlive).
    rewrite (Hstop Haw) in Hs. discriminate.
  - intros r Hmain. destruct (Hr r Hmain) as (o & E & _).
    rewrite E in Hlive. discriminate.
  - destruct Hhist as [Hfirst Hdone Hun Hst Hbefore Hafter]. split; simpl.
    + destruct Hfirst as (h & E). rewrite E. eexists. reflexivity.
    + intros j u o Hj Hpc. apply in_app_iff. left. eauto.
    + intros E. contradiction.
    + intros _. destruct (service st) eqn:Hs.
      * exists (history st). destruct s; [contradiction| |]; eauto.
      * apply started_app, Hst. discriminate.
      * apply started_app, Hst. discriminate.
    + intros Hmain. apply not_in_snoc; [auto|].
      destruct s; simpl; intuition discriminate.
    + intros Hmain.
      destruct (Hafter Hmain) as (h1 & h2 & E & H1 & H2 & Hd & Hran).
      exists h1, (h2 ++ match s with
                        | SvcEnded o => [ServiceRan; ServiceDone o]
                        | _ => [ServiceRan]
                        end).
      rewrite E, <- app_assoc. repeat split; try assumption.
      * apply not_in_snoc; [assumption|].
        destruct s; simpl; intuition discriminate.
      * rewrite forallb_app, Hran. now destruct s.
Qed.

Lemma run_service_inv st st' :
  Inv st -> run_service platform st = Some st' -> Inv st'.
Proof.
  unfold run_service. intros HI Hstep.
  destruct (service st) eqn:Hs; try discriminate.
  - injection Hstep as <-. apply set_service_inv;
      [assumption|now destruct (service_cancel_requested st)
      |now rewrite Hs|now intros ->].
  - destruct (service_cancel_requested st) eqn:Hc.
    + injection Hstep as <-.
      apply set_service_inv;
        [assumption|discriminate|now rewrite Hs|reflexivity].
    + destruct (serve_early platform); [|discriminate].
      injection Hstep as <-.
      apply set_service_inv;
        [assumption|discriminate|now rewrite Hs|reflexivity].
Qed.

Lemma run_main_inv st st' : Inv st -> run_main st = Some st' -> Inv st'.
Proof.
  unfold run_main. intros HI Hstep.
  destruct HI as [Hstatic Hreach Hsm Hdr Hcan Haw Hr Hhist].
  destruct Hhist as [Hfirst Hdone Hun Hst Hbefore Hafter].
  destruct (main_pc st) eqn:Hmain; try discriminate.
  - destruct (forallb unit_ended (units st)) eqn:Hall; [|discriminate].
    injection Hstep as <-. split; simpl; try assumption; try discriminate.
    + intros _. assumption.
    + intros H. apply negb_true_iff in H. auto.
    + intros _ ->. reflexivity.
    + split; simpl.
      * destruct Hfirst as (h & E). rewrite E. eexists. reflexivity.
      * intros j u o Hj Hpc. apply in_app_iff. left. eauto.
      * intros E. apply unstarted_app; auto.
      * intros E. apply started_app; auto.
      * discriminate.
      * intros _. exists (history st), []. repeat split; auto.
        intros i u Hu. pose proof (forallb_lookup _ _ _ _ Hall Hu) as He.
        unfold unit_ended in He. destruct (pc u) eqn:Hpc; try discriminate.
        eauto.
  - destruct (service st) as [| |o] eqn:Hs; try discriminate.
    injection Hstep as <-. split; simpl; try assumption; try discriminate.
    + intros _. apply Hdr. discriminate.
    + intros H. destruct (Hcan H) as (_ & E). discriminate E.
    + intros r [= <-]. eauto.
    + split; simpl.
      * destruct Hfirst as (h & E). rewrite E. eexists. reflexivity.
      * intros j u o' Hj Hpc. apply in_app_iff. left. eauto.
      * discriminate.
      * intros _. apply started_app, Hst. discriminate.
      * discriminate.
      * intros _. destruct Hafter as (h1 & h2 & E & H1 & H2 & Hd & Hran);
          [discriminate|].
        exists h1, (h2 ++ [MainDone (main_exit (units st) o)]).
        rewrite E, <- app_assoc. repeat split; try assumption.
        -- apply not_in_snoc; [assumption|]. simpl. intuition discriminate.
        -- rewrite forallb_app, Hran. reflexivity.
Qed.

Lemma step_inv c st st' : Inv st -> step c st = Some st' -> Inv st'.
Proof.
  destruct c; simpl.
  - apply run_main_inv.
  - apply run_service_inv.
  - apply run_unit_inv.
  - apply abort_inv.
Qed.

Lemma exec_from_inv sched st st' :
  Inv st -> exec platform args sched st = Some st' -> Inv st'.
Proof.
  revert st. induction sched as [|c sched IH]; simpl; intros st HI.
  - now intros [= <-].
  - destruct (step c st) as [st1|] eqn:Hstep; [|discriminate].
    apply IH. eapply step_inv; eauto.
Qed.

Lemma holders_spawn l : holders (map (spawn platform) l) = 0%nat.
Proof. unfold holders. induction l; simpl; auto. Qed.

Lemma created_inv : Inv (created platform args).
Proof.
  split; simpl; try discriminate; try tauto.
  - apply Forall_forall. intros u Hin.
    apply list_elem_of_In, in_map_iff in Hin as (ir & <- & _).
    exists []. reflexivity.
  - rewrite holders_spawn. reflexivity.
  - split; simpl; try tauto.
    + eexists. reflexivity.
    + intros i u o Hu Hpc. apply list_elem_of_lookup_2, list_elem_of_In in Hu.
      apply in_map_iff in Hu as (ir & <- & _). discriminate Hpc.
    + clear. induction (seq 0 (length (spawn_list args))); simpl; auto.
    + intros _ [E|Hin]; [discriminate E|].
      apply in_map_iff in Hin as (k & E & _). discriminate E.
Qed.

Lemma init_inv : Inv (init platform args).
Proof.
  unfold init. destruct (spawn_list args) eqn:Hl; [|apply created_inv].
  apply (run_main_inv (created platform args)); [apply created_inv|].
  unfold run_main, created. simpl. now rewrite Hl.
Qed.

(** Every state an admissible schedule leads to satisfies the invariant. *)
Lemma exec_inv sched st :
  exec platform args sched (init platform args) = Some st -> Inv st.
Proof. apply exec_from_inv, init_inv. Qed.

End Invariance.

(** ** The gate *)

Lemma slots_out_holders args us :
  Forall (fun u => exists script,
            unit_exec args (assigned u) (debate_id u) script [] AtGate
            = Some (trace u, pc u)) us ->
  slots_out us = holders us.
Proof.
  unfold slots_out, holders, outstanding.
  induction 1 as [|u us (script & Hu) _ IH]; simpl; [reflexivity|].
  destruct (unit_exec_inv _ _ _ _ _ _ _ _ unit_inv_start Hu) as (Hs & _).
  rewrite IH. destruct (holding (pc u)); simpl in *; lia.
Qed.

(** C4: with the semaphore of twelve permits and any number of units, in
    every state of every schedule at most twelve permits are out and as
    many units are past the gate; the semaphore's value and the permits
    out add up to twelve; a unit task that has ended, with whatever
    outcome, has given back the permit it took. *)
Theorem gate_bound platform args sched st :
  exec platform args sched (init platform args) = Some st ->
  (slots_out (units st) <= 12)%nat
  /\ slots_out (units st) = holders (units st)
  /\ (semaphore st + slots_out (units st) = 12)%nat
  /\ forall i u o,
       units st !! i = Some u -> pc u = Ended o ->
       count is_acquire (trace u) = count is_release (trace u).
Proof.
  intros Hrun. pose proof (exec_inv _ _ _ _ Hrun) as HI.
  pose proof (slots_out_holders _ _ (inv_reach _ _ _ HI)) as Hslots.
  pose proof (inv_sem _ _ _ HI) as Hsem. unfold CAPACITY in Hsem.
  repeat split; try lia.
  intros i u o Hu Hpc.
  pose proof (inv_reach _ _ _ HI) as Hreach. rewrite Forall_lookup in Hreach.
  destruct (Hreach _ _ Hu) as (script & Hx).
  destruct (unit_exec_inv _ _ _ _ _ _ _ _ unit_inv_start Hx) as (Hs & _).
  rewrite Hpc in Hs. simpl in Hs. lia.
Qed.

(** Thirteen units: twelve are admitted, the thirteenth waits. *)
Lemma gate_bound_witness :
  exists st,
    exec (ex_platform (fun _ _ => Ret ex_good)) (ex_args 0 13 1)
      (PickService :: ex_round 0 12)
      (init (ex_platform (fun _ _ => Ret ex_good)) (ex_args 0 13 1))
    = Some st
    /\ semaphore st = 0%nat
    /\ step (ex_platform (fun _ _ => Ret ex_good)) (ex_args 0 13 1)
         (PickUnit 12) st = None
    /\ (slots_out (units st) <= 12)%nat
    /\ slots_out (units st) = holders (units st)
    /\ (semaphore st + slots_out (units st) = 12)%nat
    /\ forall i u o,
         units st !! i = Some u -> pc u = Ended o ->
         count is_acquire (trace u) = count is_release (trace u).
Proof.
  eexists. split; [vm_compute; reflexivity|].
  split; [reflexivity|]. split; [reflexivity|].
  apply (gate_bound (ex_platform (fun _ _ => Ret ex_good)) (ex_args 0 13 1)
           (PickService :: ex_round 0 12)).
  vm_compute. reflexivity.
Defined.

(** ** The service task around the unit tasks *)

Lemma split_unique {A} (x : A) h1 h2 k1 k2 :
  ~ In x h1 -> ~ In x h2 ->
  h1 ++ x :: h2 = k1 ++ x :: k2 -> k1 = h1 /\ k2 = h2.
Proof.
  revert k1. induction h1 as [|a h1 IH]; intros [|b k1] H1 H2 E;
    simpl in *; simplify_eq.
  - auto.
  - exfalso. apply H2. apply in_app_iff. right. now left.
  - exfalso. apply H1. now left.
  - destruct (IH k1) as (-> & ->); auto.
Qed.

Lemma not_ran_forallb h i :
  forallb (fun s => negb (is_unit_ran s)) h = true -> ~ In (UnitRan i) h.
Proof.
  intros Hall Hin. rewrite forallb_forall in Hall.
  specialize (Hall _ Hin). discriminate Hall.
Qed.

Lemma units_length platform args st :
  Inv platform args st -> length (units st) = length (spawn_list args).
Proof.
  intros HI. pose proof (inv_static _ _ _ HI) as H.
  apply (f_equal (@length _)) in H. now rewrite !length_map in H.
Qed.

Lemma before_first {A} (x y : A) l1 l2 k1 k2 :
  l1 ++ x :: l2 = k1 ++ y :: k2 -> ~ In x k1 -> x <> y -> In y l1.
Proof.
  revert l1. induction k1 as [|b k1 IH]; intros [|a l1] E Hx Hxy;
    simpl in *; simplify_eq.
  - now left.
  - exfalso. apply Hx. now left.
  - right. apply (IH l1); auto.
Qed.


(** ** The tasks [main] creates *)

Lemma flat_map_length_const {A B} (f : A -> list B) (l : list A) n :
  (forall x, length (f x) = n) -> length (flat_map f l) = (length l * n)%nat.
Proof.
  intros Hf. induction l as [|x l IH]; simpl; [reflexivity|].
  now rewrite length_app, Hf, IH.
Qed.

Lemma flat_map_lookup_const {A B} (f : A -> list B) (l : list A) n i j x :
  (forall x, length (f x) = n) -> (j < n)%nat -> l !! i = Some x ->
  flat_map f l !! (i * n + j)%nat = f x !! j.
Proof.
  intros Hf Hj. revert i. induction l as [|y l IH]; intros [|i] Hi;
    simpl in *; try discriminate.
  - injection Hi as ->. apply lookup_app_l. now rewrite Hf.
  - rewrite lookup_app_r by (rewrite Hf; lia).
    rewrite Hf. replace (n + i * n + j - n)%nat with (i * n + j)%nat by lia.
    now apply IH.
Qed.

Lemma lookup_map {A B} (f : A -> B) (l : list A) i :
  map f l !! i = f <$> l !! i.
Proof. exact (list_lookup_fmap f l i). Qed.

Lemma NoDup_pairs {A B} (ids : list A) (reps : list B) :
  NoDup ids -> NoDup reps ->
  NoDup (flat_map (fun id => map (fun r => (id, r)) reps) ids).
Proof.
  intros Hids Hreps. induction Hids as [|id ids Hid _ IH]; simpl.
  - constructor.
  - apply NoDup_app. split; [|split; [|exact IH]].
    + apply (NoDup_fmap_2 (fun r => (id, r))). exact Hreps.
    + intros [a b] Hin Hin'.
      apply list_elem_of_In, in_map_iff in Hin as (r & [= <- <-] & _).
      apply list_elem_of_In, in_flat_map in Hin' as (id' & Hid' & Hin').
      apply in_map_iff in Hin' as (r' & [= -> ->] & _).
      apply Hid, list_elem_of_In, Hid'.
Qed.

Lemma py_range_length a b : a <= b -> Z.of_nat (length (py_range a b)) = b - a.
Proof. intros H. unfold py_range. rewrite length_seqZ. lia. Qed.

Lemma init_units platform args :
  units (init platform args) = map (spawn platform) (spawn_list args).
Proof. unfold init, created. now destruct (spawn_list args). Qed.

(** C6: for a range [start <= stop] of debate ids and a count
    [repeat >= 0], [main] creates [(stop - start) * repeat] unit tasks, one
    for each pair of an id of the range and a repetition below the count,
    no pair twice, the ids in increasing order and, for each id, the
    repetitions in increasing order; every task starts before the gate. *)
Theorem tasks_created platform args :
  start args <= stop args -> 0 <= repeat args ->
  let tasks := map (fun u => (debate_id u, repetition u))
                 (units (init platform args)) in
  Z.of_nat (length tasks) = (stop args - start args) * repeat args
  /\ NoDup tasks
  /\ (forall id r, In (id, r) tasks <->
        start args <= id < stop args /\ 0 <= r < repeat args)
  /\ (forall i j, 0 <= i < stop args - start args -> 0 <= j < repeat args ->
        tasks !! Z.to_nat (i * repeat args + j) = Some (start args + i, j))
  /\ Forall (fun u => pc u = AtGate) (units (init platform args)).
Proof.
  intros Hrange Hrep tasks.
  assert (tasks = spawn_list args) as ->.
  { unfold tasks. rewrite init_units, map_map. simpl.
    clear. induction (spawn_list args) as [|[a b] l IH]; simpl; congruence. }
  assert (forall id : Z,
            length (map (fun r => (id, r)) (py_range 0 (repeat args)))
            = Z.to_nat (repeat args)) as Hlen.
  { intros id. rewrite length_map. unfold py_range. rewrite length_seqZ. lia. }
  repeat split.
  - unfold spawn_list. rewrite (flat_map_length_const _ _ _ Hlen).
    unfold py_range. rewrite length_seqZ, Nat2Z.inj_mul, !Z2Nat.id by lia.
    reflexivity.
  - apply NoDup_pairs; apply NoDup_seqZ.
  - unfold spawn_list, py_range in H.
    apply in_flat_map in H as (id' & Hid & H).
    apply in_map_iff in H as (r' & [= -> ->] & _).
    apply list_elem_of_In, elem_of_seqZ in Hid. lia.
  - unfold spawn_list, py_range in H.
    apply in_flat_map in H as (id' & Hid & H).
    apply in_map_iff in H as (r' & [= -> ->] & _).
    apply list_elem_of_In, elem_of_seqZ in Hid. lia.
  - unfold spawn_list, py_range in H.
    apply in_flat_map in H as (id' & _ & H).
    apply in_map_iff in H as (r' & [= -> ->] & Hr).
    apply list_elem_of_In, elem_of_seqZ in Hr. lia.
  - unfold spawn_list, py_range in H.
    apply in_flat_map in H as (id' & _ & H).
    apply in_map_iff in H as (r' & [= -> ->] & Hr).
    apply list_elem_of_In, elem_of_seqZ in Hr. lia.
  - intros ((H1 & H2) & H3 & H4). unfold spawn_list, py_range.
    apply in_flat_map. exists id. split.
    + apply list_elem_of_In, elem_of_seqZ. lia.
    + apply in_map_iff. exists r. split; [reflexivity|].
      apply list_elem_of_In, elem_of_seqZ. lia.
  - intros i j Hi Hj. unfold spawn_list.
    replace (Z.to_nat (i * repeat args + j))
      with (Z.to_nat i * Z.to_nat (repeat args) + Z.to_nat j)%nat by nia.
    rewrite (flat_map_lookup_const _ _ _ _ _ (start args + i) Hlen);
      [|lia|].
    + rewrite lookup_map. unfold py_range.
      rewrite lookup_seqZ_lt by lia. simpl. do 3 f_equal. lia.
    + unfold py_range. rewrite lookup_seqZ_lt by lia. f_equal. lia.
  - rewrite init_units. apply Forall_forall. intros u Hin.
    apply list_elem_of_In, in_map_iff in Hin as (ir & <- & _). reflexivity.
Qed.

(** Three ids, two repetitions: six tasks. *)
Lemma tasks_created_witness :
  let tasks := map (fun u => (debate_id u, repetition u))
                 (units (init (ex_platform (fun _ _ => Ret ex_good))
                           (ex_args 0 3 2))) in
  tasks = [(0, 0); (0, 1); (1, 0); (1, 1); (2, 0); (2, 1)]
  /\ Z.of_nat (length tasks) = (3 - 0) * 2
  /\ NoDup tasks
  /\ tasks !! Z.to_nat (2 * 2 + 1) = Some (0 + 2, 1).
Proof.
  split; [reflexivity|].
  destruct (tasks_created (ex_platform (fun _ _ => Ret ex_good))
              (ex_args 0 3 2) ltac:(simpl; lia) ltac:(simpl; lia))
    as (Hlen & Hnodup & _ & Hnth & _).
  split; [exact Hlen|]. split; [exact Hnodup|].
  apply (Hnth 2 1); simpl; lia.
Defined.

(** ** Stopping the service task *)

Lemma spawn_list_empty args :
  stop args <= start args \/ repeat args <= 0 -> spawn_list args = [].
Proof.
  unfold spawn_list, py_range. intros [H|H].
  - now rewrite (seqZ_nil (start args)) by lia.
  - rewrite (seqZ_nil 0) by lia. simpl.
    induction (seqZ _ _); simpl; auto.
Qed.

(** C10: when the range of ids is empty or the count is not positive,
    [main] creates the service task and no unit task, calls
    [task.cancel()] at once, awaits the task, which ends cancelled without
    having run, and returns normally; no other run exists. *)
Theorem empty_batch platform args :
  stop args <= start args \/ repeat args <= 0 ->
  units (init platform args) = []
  /\ history (init platform args) = [ServiceSpawned; CancelRequested]
  /\ (exists st,
        exec platform args [PickService; PickMain] (init platform args)
        = Some st
        /\ main_pc st = MainEnded Returned
        /\ service st = SvcEnded Cancelled
        /\ history st = [ServiceSpawned; CancelRequested; ServiceRan;
                         ServiceDone Cancelled; MainDone Returned])
  /\ forall sched st,
       exec platform args sched (init platform args) = Some st ->
       sched = [] \/ sched = [PickService]
       \/ sched = [PickService; PickMain].
Proof.
  intros Hempty. apply spawn_list_empty in Hempty.
  unfold init, created. rewrite Hempty. simpl.
  split; [reflexivity|]. split; [reflexivity|]. split.
  - eexists. split; [reflexivity|]. simpl. auto.
  - intros [|c1 sched] st; [auto|]. right.
    destruct c1; simpl; try discriminate.
    destruct sched as [|c2 sched]; [auto|]. right.
    destruct c2; simpl; try discriminate.
    destruct sched as [|c3 sched]; [auto|].
    destruct c3; simpl; discriminate.
Qed.

Lemma empty_batch_witness :
  exists st,
    exec (ex_platform (fun _ _ => Ret ex_good)) (ex_args 2 2 5)
      [PickService; PickMain]
      (init (ex_platform (fun _ _ => Ret ex_good)) (ex_args 2 2 5))
    = Some st
    /\ main_pc st = MainEnded Returned
    /\ service st = SvcEnded Cancelled
    /\ history st = [ServiceSpawned; CancelRequested; ServiceRan;
                     ServiceDone Cancelled; MainDone Returned].
Proof.
  apply (empty_batch (ex_platform (fun _ _ => Ret ex_good)) (ex_args 2 2 5)).
  left. simpl. lia.
Defined.

(** C5: when [main] awaits the service task, every unit task has ended
    and [task.cancel()] has been called; the task, if not yet done, can
    run and ends as its reaction to the cancellation says (cancelled, when
    it had not started); and once it has ended cancelled, [await task]
    raises nothing that leaves the [try] block: [main] goes on and
    returns normally unless a unit task had failed. *)
Theorem graceful_stop platform args sched st :
  exec platform args sched (init platform args) = Some st ->
  main_pc st = AwaitService ->
  forallb unit_ended (units st) = true
  /\ In CancelRequested (history st)
  /\ (service_ended (service st) = false ->
      service_cancel_requested st = true
      /\ exists st1,
           step platform args PickService st = Some st1
           /\ main_pc st1 = AwaitService
           /\ service st1 =
              SvcEnded match service st with
                       | SvcCreated => Cancelled
                       | _ => outcome_of (serve_cancelled platform)
                       end)
  /\ (service st = SvcEnded Cancelled ->
      await_service Cancelled = Ret ()
      /\ exists st2,
           step platform args PickMain st = Some st2
           /\ main_pc st2 = MainEnded (if existsb unit_failed (units st)
                                       then Raised else Returned)).
Proof.
  intros Hrun Hmain. pose proof (exec_inv _ _ _ _ Hrun) as HI.
  split; [apply (inv_drained _ _ _ HI); congruence|]. split.
  - destruct (hist_after _ (inv_hist _ _ _ HI)) as (h1 & h2 & -> & _);
      [congruence|].
    apply in_app_iff. right. now left.
  - split.
    + intros Hlive. pose proof (inv_await _ _ _ HI Hmain Hlive) as Hreq.
      split; [assumption|]. simpl. unfold run_service. rewrite Hreq.
      destruct (service st); try discriminate; eexists; eauto.
    + intros Hs. split; [reflexivity|]. simpl. unfold run_main.
      rewrite Hmain, Hs. eexists. split; reflexivity.
Qed.

(** ** Every schedule is finite and ends with [main] *)

Lemma resume_rank args free c a id pc sl :
  resume args free c a id pc = Some sl -> (rank (snd sl) < rank pc)%nat.
Proof.
  intros Hres.
  destruct pc; simpl in Hres; unfold await, leave, work_enter, work_select,
    work_start, work_report, work_handle, work_saved, work_exit in Hres;
    repeat case_match; simplify_eq; simpl; lia.
Qed.

Lemma rank_sum_insert us i u u' :
  us !! i = Some u ->
  (list_sum (map (fun u => rank (pc u)) (<[i := u']> us)) + rank (pc u)
   = list_sum (map (fun u => rank (pc u)) us) + rank (pc u'))%nat.
Proof.
  revert i. induction us as [|x us IH]; intros [|i] H; simpl in *;
    try discriminate.
  - injection H as ->. lia.
  - specialize (IH _ H). lia.
Qed.

Lemma rank_sum_request_cancel us :
  list_sum (map (fun u => rank (pc u)) (map request_cancel us))
  = list_sum (map (fun u => rank (pc u)) us).
Proof.
  induction us as [|x us IH]; simpl; [reflexivity|].
  now rewrite IH, request_cancel_pc.
Qed.

Lemma step_measure platform args c st st' :
  step platform args c st = Some st' -> (measure st' < measure st)%nat.
Proof.
  unfold measure. destruct c; simpl.
  - unfold run_main. intros H. repeat case_match; simplify_eq; simpl; lia.
  - unfold run_service, set_service. intros H.
    repeat case_match; simplify_eq; simpl; lia.
  - intros H. destruct (run_unit_spec _ _ _ _ H)
      as (u & sl & Hu & Hres & -> & -> & _ & _ & -> & -> & _).
    pose proof (resume_rank _ _ _ _ _ _ _ Hres).
    pose proof (rank_sum_insert (units st) i u
      {| debate_id := debate_id u; repetition := repetition u;
         assigned := assigned u; pc := snd sl; cancel_requested := false;
         trace := trace u ++ fst sl |} Hu) as H1.
    simpl in H1. lia.
  - unfold abort. intros H. repeat case_match; simplify_eq; simpl.
    rewrite rank_sum_request_cancel.
    destruct (aborting st); simpl in *; [discriminate|lia].
Qed.

Lemma exec_measure platform args sched st st' :
  exec platform args sched st = Some st' ->
  (length sched + measure st' <= measure st)%nat.
Proof.
  revert st. induction sched as [|c sched IH]; simpl; intros st.
  - intros [= <-]. lia.
  - destruct (step platform args c st) as [st1|] eqn:Hstep; [|discriminate].
    intros H. specialize (IH _ H). apply step_measure in Hstep. lia.
Qed.

Lemma measure_init platform args :
  (measure (init platform args) <= 5 + 7 * length (spawn_list args))%nat.
Proof.
  unfold measure. rewrite init_units.
  assert (list_sum (map (fun u => rank (pc u))
                      (map (spawn platform) (spawn_list args)))
          = (7 * length (spawn_list args))%nat) as ->.
  { induction (spawn_list args); simpl in *; lia. }
  unfold init. destruct (spawn_list args); simpl; lia.
Qed.

Lemma holders_none us :
  existsb (fun u => holding (pc u)) us = false -> holders us = 0%nat.
Proof.
  unfold holders. induction us as [|x us IH]; simpl; [reflexivity|].
  destruct (holding (pc x)); simpl; [discriminate|assumption].
Qed.

Lemma forallb_false_lookup {A} (f : A -> bool) l :
  forallb f l = false -> exists i x, l !! i = Some x /\ f x = false.
Proof.
  induction l as [|y l IH]; simpl; [discriminate|].
  destruct (f y) eqn:E; simpl.
  - intros H. destruct (IH H) as (i & x & Hi & Hx). exists (S i), x. auto.
  - intros _. exists 0%nat, y. auto.
Qed.

Lemma existsb_true_lookup {A} (f : A -> bool) l :
  existsb f l = true -> exists i x, l !! i = Some x /\ f x = true.
Proof.
  induction l as [|y l IH]; simpl; [discriminate|].
  destruct (f y) eqn:E; simpl.
  - intros _. exists 0%nat, y. auto.
  - intros H. destruct (IH H) as (i & x & Hi & Hx). exists (S i), x. auto.
Qed.

Lemma run_unit_enabled args i st u :
  service st <> SvcCreated ->
  units st !! i = Some u ->
  is_Some (resume args (0 <? semaphore st)%nat (cancel_requested u)
             (assigned u) (debate_id u) (pc u)) ->
  is_Some (run_unit args i st).
Proof.
  intros Hs Hu [sl Hres]. unfold run_unit.
  destruct (service st); [contradiction| |]; simpl; rewrite Hu; simpl;
    rewrite Hres; simpl; eauto.
Qed.

(** No deadlock: as long as [main] has not ended, something can run. *)
Lemma progress platform args st :
  Inv platform args st -> quiescent platform args st ->
  exists r, main_pc st = MainEnded r.
Proof.
  intros HI Hq. destruct (main_pc st) eqn:Hmain; [| |eauto]; exfalso.
  - pose proof (Hq PickMain) as Hm. simpl in Hm. unfold run_main in Hm.
    rewrite Hmain in Hm.
    destruct (forallb unit_ended (units st)) eqn:Hall; [discriminate|].
    assert (service st <> SvcCreated) as Hstarted.
    { intros Hs. pose proof (Hq PickService) as Hx. simpl in Hx.
      unfold run_service in Hx. rewrite Hs in Hx. discriminate. }
    destruct (existsb (fun u => holding (pc u)) (units st)) eqn:Hhold.
    + apply existsb_true_lookup in Hhold as (i & u & Hu & Hh).
      specialize (Hq (PickUnit i)). simpl in Hq.
      destruct (run_unit_enabled args i st u Hstarted Hu) as [st' E];
        [|congruence].
      destruct (pc u); try discriminate; simpl; eauto.
    + apply forallb_false_lookup in Hall as (i & u & Hu & He).
      pose proof (existsb_exists (fun u => holding (pc u)) (units st)) as Hx.
      assert (holding (pc u) = false) as Hh.
      { destruct (holding (pc u)) eqn:E; [|reflexivity].
        rewrite <- Hhold. symmetry. apply Hx. exists u. split; [|exact E].
        apply list_elem_of_In, list_elem_of_lookup. eauto. }
      pose proof (inv_sem _ _ _ HI) as Hsem.
      rewrite (holders_none _ Hhold) in Hsem.
      specialize (Hq (PickUnit i)). simpl in Hq.
      destruct (run_unit_enabled args i st u Hstarted Hu) as [st' E];
        [|congruence].
      unfold unit_ended in He. destruct (pc u); try discriminate.
      simpl. replace (semaphore st) with CAPACITY by lia.
      destruct (cancel_requested u); simpl; eauto.
  - destruct (service st) eqn:Hs.
    + pose proof (Hq PickService) as Hx. simpl in Hx. unfold run_service in Hx.
      rewrite Hs in Hx. discriminate.
    + pose proof (inv_await _ _ _ HI Hmain) as Hreq. rewrite Hs in Hreq.
      specialize (Hreq eq_refl).
      pose proof (Hq PickService) as Hx. simpl in Hx. unfold run_service in Hx.
      rewrite Hs, Hreq in Hx. discriminate.
    + pose proof (Hq PickMain) as Hx. simpl in Hx. unfold run_main in Hx.
      rewrite Hmain, Hs in Hx. discriminate.
Qed.

(** ** Units that run undisturbed *)

Lemma drive_ended args a id k tr o :
  drive args k a id tr (Ended o) = (tr, Ended o).
Proof. now destruct k. Qed.

Lemma drive_snoc args a id k tr0 pc0 tr pc sl :
  drive args k a id tr0 pc0 = (tr, pc) ->
  resume args true false a id pc = Some sl ->
  drive args (S k) a id tr0 pc0 = (tr ++ fst sl, snd sl).
Proof.
  revert tr0 pc0. induction k as [|k IH]; intros tr0 pc0.
  - intros [= -> ->] Hres. simpl. rewrite Hres. now destruct sl.
  - intros Hk Hres. simpl in Hk |- *.
    destruct (resume args true false a id pc0) as [[evs pc1]|] eqn:E.
    + now apply IH.
    + injection Hk as -> ->. congruence.
Qed.

Lemma drive_more args a id k j tr0 pc0 tr o :
  drive args k a id tr0 pc0 = (tr, Ended o) ->
  drive args (k + j) a id tr0 pc0 = (tr, Ended o).
Proof.
  revert tr0 pc0. induction k as [|k IH]; intros tr0 pc0.
  - intros [= -> ->]. apply drive_ended.
  - simpl. destruct (resume args true false a id pc0) as [[evs pc1]|] eqn:E.
    + apply IH.
    + intros [= -> ->]. now destruct j.
Qed.

Lemma drive_done args a id k tr pc :
  (rank pc <= k)%nat -> is_ended (snd (drive args k a id tr pc)) = true.
Proof.
  revert tr pc. induction k as [|k IH]; intros tr pc Hr.
  - destruct pc; simpl in *; solve [lia | reflexivity].
  - simpl. destruct (resume args true false a id pc) as [[evs pc1]|] eqn:E.
    + apply IH. apply resume_rank in E. simpl in E. lia.
    + destruct pc; try discriminate. reflexivity.
Qed.

(** A unit that ended on the undisturbed path ended as [wait_and_work]
    says. *)
Lemma drive_wait_and_work args a id k tr o :
  drive args k a id [] AtGate = (tr, Ended o) ->
  wait_and_work args a id = (tr, Ended o).
Proof.
  intros Hk. unfold wait_and_work. destruct (le_lt_dec k 8) as [Hle|Hgt].
  - replace 8%nat with (k + (8 - k))%nat by lia. now apply drive_more.
  - pose proof (drive_done args a id 8 [] AtGate ltac:(simpl; lia)) as Hd.
    destruct (drive args 8 a id [] AtGate) as [tr8 pc8] eqn:E8.
    destruct pc8 as [| | | | | | |o8]; try discriminate Hd.
    pose proof (drive_more _ _ _ _ (k - 8) _ _ _ _ E8) as Hm.
    replace (8 + (k - 8))%nat with k in Hm by lia. congruence.
Qed.

Lemma output_In line tr : In line (output tr) <-> In (Print line) tr.
Proof.
  unfold output. induction tr as [|e tr IH]; simpl; [tauto|].
  destruct e; simpl; rewrite IH; intuition congruence.
Qed.

Lemma drive_reset_end args a id k tr s :
  reset_debate s = Ret () ->
  snd (drive args (S (S k)) a id tr (AtResetDebate s None)) = Ended Finished.
Proof. intros H. cbn. rewrite H. reflexivity. Qed.

(** With contained answers the unit, left alone, finishes. *)
Lemma contained_finishes args a id :
  contained args a id = true ->
  snd (wait_and_work args a id) = Ended Finished.
Proof.
  unfold contained. destruct a as [s|]; [|discriminate].
  destruct (title_of args s id) as [title|] eqn:Ht; [|discriminate].
  destruct (reset_debate s) as [[]|] eqn:Hreset;
    [|rewrite andb_false_r; discriminate].
  intros H. apply andb_prop in H as (H & _).
  apply andb_prop in H as (H & Hsave). apply andb_prop in H as (_ & Hrun).
  destruct (wait_and_work_entered _ _ _ _ Ht) as (config & code & ->).
  destruct (start_debate s) as [r|[cls msg|]] eqn:Er; [| |discriminate].
  - destruct (report args r) as [lines|[cls msg|]] eqn:Hrep.
    + erewrite drive_resume
        by (cbn; rewrite Er; unfold work_report; rewrite Hrep; reflexivity).
      destruct (save_record s) as [location|[cls msg|]] eqn:Es;
        [| |discriminate].
      all: erewrite drive_resume by (cbn; rewrite Es; reflexivity).
      all: cbn [fst snd work_saved work_handle]; now apply drive_reset_end.
    + erewrite drive_resume
        by (cbn; rewrite Er; unfold work_report; rewrite Hrep; reflexivity).
      cbn [fst snd work_handle]. now apply drive_reset_end.
    + unfold report, report_summary in Hrep. repeat case_match; discriminate.
  - erewrite drive_resume by (cbn; rewrite Er; reflexivity).
    cbn [fst snd work_handle]. now apply drive_reset_end.
Qed.

(** An exception of the run step is printed. *)
Lemma run_failure_printed args s id title cls msg :
  title_of args s id = Some title ->
  start_debate s = Raise (Exc cls msg) ->
  In (Print ("Failed: " +:+ msg +:+ nl)) (fst (wait_and_work args (Ret s) id)).
Proof.
  intros Ht Hrun. apply output_In.
  destruct (wait_and_work_entered _ _ _ _ Ht) as (config & code & ->).
  rewrite try_block_output, Hrun. apply in_app_iff. right. now left.
Qed.

(** ** Exceptions that stay inside [work] *)

Lemma resume_free args free a id pc sl :
  resume args free false a id pc = Some sl ->
  resume args true false a id pc = Some sl.
Proof. destruct pc; simpl; try tauto. now destruct free. Qed.

Section Containment.

Variable platform : Platform.
Variable args : ScriptArgs.

Hypothesis Hcontained :
  forallb (fun ir => contained args (assign platform (fst ir) (snd ir))
                       (fst ir)) (spawn_list args) = true.
Hypothesis Hservice : service_safe platform = true.

Lemma unit_static st i u :
  Inv platform args st -> units st !! i = Some u ->
  In (debate_id u, repetition u) (spawn_list args)
  /\ assigned u = assign platform (debate_id u) (repetition u).
Proof.
  intros HI Hu. pose proof (inv_static _ _ _ HI) as Hs.
  apply (f_equal (fun l => l !! i)) in Hs.
  rewrite !lookup_map, Hu in Hs. simpl in Hs.
  destruct (spawn_list args !! i) as [[id r]|] eqn:Hi; [|discriminate].
  simpl in Hs. injection Hs as -> -> ->. split; [|reflexivity].
  apply list_elem_of_In, list_elem_of_lookup. eauto.
Qed.

Lemma unit_contained st i u :
  Inv platform args st -> units st !! i = Some u ->
  contained args (assigned u) (debate_id u) = true.
Proof.
  intros HI Hu. destruct (unit_static _ _ _ HI Hu) as (Hin & ->).
  rewrite forallb_forall in Hcontained. apply (Hcontained _ Hin).
Qed.

Lemma init_calm : Calm args (init platform args).
Proof.
  split.
  - unfold init. now destruct (spawn_list args).
  - rewrite init_units. apply Forall_forall. intros u Hin.
    apply list_elem_of_In, in_map_iff in Hin as (ir & <- & _).
    split; [reflexivity|]. split; [exists 0%nat; reflexivity|discriminate].
  - unfold init. now destruct (spawn_list args).
Qed.

Lemma step_calm c st st' :
  Inv platform args st -> Calm args st ->
  step platform args c st = Some st' -> Calm args st'.
Proof.
  intros HI [Hgroup Hunits Hsvc]. destruct c; simpl.
  - unfold run_main. intros H. repeat case_match; simplify_eq;
      split; assumption.
  - unfold run_service, set_service. intros H.
    unfold service_safe in Hservice. apply andb_prop in Hservice as (He & Hc).
    repeat case_match; simplify_eq; split; simpl; auto.
  - intros H. destruct (run_unit_spec _ _ _ _ H)
      as (u & sl & Hu & Hres & _ & Hs & _ & _ & Ha & Hus & _).
    rewrite Forall_lookup in Hunits.
    destruct (Hunits _ _ Hu) as (Hcancel & (k & Hk) & _).
    rewrite Hcancel in Hres. apply resume_free in Hres.
    pose proof (drive_snoc _ _ _ _ _ _ _ _ _ Hk Hres) as Hk'.
    split; [congruence| |congruence].
    rewrite Hus. apply Forall_insert; [now apply Forall_lookup|].
    split; [reflexivity|]. split; [exists (S k); exact Hk'|].
    simpl. intros o Ho. rewrite Ho in Hk'.
    apply drive_wait_and_work in Hk'.
    pose proof (contained_finishes _ _ _ (unit_contained _ _ _ HI Hu)) as Hf.
    rewrite Hk' in Hf. simpl in Hf. congruence.
  - unfold abort. intros H. exfalso.
    destruct (main_pc st); try discriminate.
    rewrite Hgroup, Hsvc, orb_false_r in H. simpl in H.
    destruct (existsb unit_failed (units st)) eqn:E; [|discriminate].
    apply existsb_true_lookup in E as (i & u & Hu & Hf).
    rewrite Forall_lookup in Hunits.
    destruct (Hunits _ _ Hu) as (_ & _ & Hend).
    unfold unit_failed in Hf. destruct (pc u) as [| | | | | | |[]];
      try discriminate.
    specialize (Hend _ eq_refl). discriminate.
Qed.

Lemma exec_calm sched st st' :
  Inv platform args st -> Calm args st ->
  exec platform args sched st = Some st' -> Calm args st'.
Proof.
  revert st. induction sched as [|c sched IH]; simpl; intros st HI HC.
  - now intros [= <-].
  - destruct (step platform args c st) as [st1|] eqn:Hstep; [|discriminate].
    apply IH; [eapply step_inv | eapply step_calm]; eauto.
Qed.

End Containment.


(** ** An exception of [platform.assign()] *)

Lemma assign_raises_reach args cls msg id script tr0 pc0 tr pc :
  unit_exec args (Raise (Exc cls msg)) id script tr0 pc0 = Some (tr, pc) ->
  (tr0 = [] /\ pc0 = AtGate) \/ (tr0 = [] /\ pc0 = Ended Cancelled)
  \/ (tr0 = [Acquire; CallAssign] /\ pc0 = AtAssign)
  \/ (tr0 = [Acquire; CallAssign; Release]
      /\ (pc0 = Ended (Failed cls msg) \/ pc0 = Ended Cancelled)) ->
  (tr = [] /\ pc = AtGate) \/ (tr = [] /\ pc = Ended Cancelled)
  \/ (tr = [Acquire; CallAssign] /\ pc = AtAssign)
  \/ (tr = [Acquire; CallAssign; Release]
      /\ (pc = Ended (Failed cls msg) \/ pc = Ended Cancelled)).
Proof.
  revert tr0 pc0. induction script as [|[free c] script IH]; simpl;
    intros tr0 pc0.
  - now intros [= -> ->].
  - destruct (resume args free c (Raise (Exc cls msg)) id pc0) as [sl|] eqn:E;
      [|discriminate].
    intros Hrun H. apply (IH _ _ Hrun). clear IH Hrun.
    destruct H as [(-> & ->)|[(-> & ->)|[(-> & ->)|(-> & [->| ->])]]];
      simpl in E; try discriminate.
    + destruct c; [|destruct free]; simplify_eq; simpl; auto.
    + destruct c; simplify_eq; simpl; auto 10.
Qed.

(** C9: an exception raised by [platform.assign()] is not caught by the
    unit: the permit is given back, nothing is printed, and the task ends
    failed with that exception, so that the inner group aborts and [main]
    ends by raising; whereas an exception raised by the run step is caught
    and printed, and the task finishes. *)
Theorem assign_error_escapes platform args sched st i u cls msg :
  exec platform args sched (init platform args) = Some st ->
  units st !! i = Some u ->
  assigned u = Raise (Exc cls msg) ->
  wait_and_work args (assigned u) (debate_id u)
  = ([Acquire; CallAssign; Release], Ended (Failed cls msg))
  /\ (pc u = Ended (Failed cls msg) ->
      trace u = [Acquire; CallAssign; Release]
      /\ (forall r, main_pc st = MainEnded r -> r = Raised)
      /\ (main_pc st = InnerExit -> aborting st = false ->
          is_Some (step platform args PickAbort st)))
  /\ forall s id title cls' msg',
       title_of args s id = Some title ->
       start_debate s = Raise (Exc cls' msg') ->
       reset_debate s = Ret () ->
       snd (wait_and_work args (Ret s) id) = Ended Finished
       /\ In (Print ("Failed: " +:+ msg' +:+ nl))
            (fst (wait_and_work args (Ret s) id)).
Proof.
  intros Hrun Hu Ha. pose proof (exec_inv _ _ _ _ Hrun) as HI.
  split; [now rewrite Ha|]. split.
  - intros Hpc.
    assert (existsb unit_failed (units st) = true) as Hfailed.
    { apply existsb_exists. exists u. split.
      - apply list_elem_of_In, list_elem_of_lookup. eauto.
      - unfold unit_failed. now rewrite Hpc. }
    split; [|split].
    + pose proof (inv_reach _ _ _ HI) as Hreach.
      rewrite Forall_lookup in Hreach.
      destruct (Hreach _ _ Hu) as (script & Hx). rewrite Ha, Hpc in Hx.
      apply assign_raises_reach in Hx; [|auto].
      destruct Hx as [(_ & E)|[(_ & E)|[(_ & E)|(E & _)]]];
        try discriminate E. exact E.
    + intros r Hmain. destruct (inv_result _ _ _ HI _ Hmain) as (o & _ & ->).
      unfold main_exit. rewrite Hfailed. now destruct (await_service o).
    + intros Hmain Hgroup. simpl. unfold abort.
      rewrite Hmain, Hgroup, Hfailed. simpl. eauto.
  - intros s id title cls' msg' Ht Hs Hreset. split.
    + destruct (wait_and_work_entered _ _ _ _ Ht) as (config & code & ->).
      erewrite drive_resume by (cbn; rewrite Hs; reflexivity).
      cbn [fst snd work_handle]. now apply drive_reset_end.
    + eapply run_failure_printed; eauto.
Qed.

(** ** Sample runs *)

Lemma quiescent_five platform args st :
  main_pc st = MainEnded Returned ->
  service st = SvcEnded Cancelled ->
  map pc (units st) = replicate 5 (Ended Finished) ->
  quiescent platform args st.
Proof.
  intros Hm Hs Hu c. destruct c; simpl.
  - unfold run_main. now rewrite Hm.
  - unfold run_service. now rewrite Hs.
  - unfold run_unit. rewrite Hs. simpl.
    destruct (units st !! i) as [u|] eqn:E; [|reflexivity].
    simpl. assert (pc u = Ended Finished) as ->; [|reflexivity].
    apply (f_equal (fun l => l !! i)) in Hu. rewrite lookup_map, E in Hu.
    change (pc <$> Some u) with (Some (pc u)) in Hu.
    symmetry in Hu. apply lookup_replicate in Hu as (Hu & _).
    congruence.
  - unfold abort. now rewrite Hm.
Qed.




(** After the five units are done and the server has acknowledged its
    cancellation, [main] goes on and returns. *)
Lemma graceful_stop_witness :
  exists st st2,
    exec ex_one_run_fails (ex_args 0 1 5)
      (ex_drain ++ [PickMain; PickService])
      (init ex_one_run_fails (ex_args 0 1 5)) = Some st
    /\ service st = SvcEnded Cancelled
    /\ step ex_one_run_fails (ex_args 0 1 5) PickMain st = Some st2
    /\ main_pc st2 = MainEnded Returned.
Proof.
  eexists.
  destruct (graceful_stop ex_one_run_fails (ex_args 0 1 5)
              (ex_drain ++ [PickMain; PickService])
              _ ltac:(vm_compute; reflexivity) ltac:(reflexivity))
    as (_ & _ & _ & Hack).
  destruct (Hack eq_refl) as (_ & st2 & Hstep & Hmain).
  exists st2. split; [vm_compute; reflexivity|].
  split; [reflexivity|]. split; [exact Hstep|exact Hmain].
Defined.

Lemma cancelled_run_reported_witness :
  output (fst (wait_and_work (ex_args 0 1 1) (Ret ex_cancelled_run) 0))
  = ["Start: m0 --- tea" +:+ nl; "End: m0 --- tea" +:+ nl;
     "Debate cancelled." +:+ nl; "Verdict saved at out.json" +:+ nl].
Proof.
  exact (cancelled_run_reported (ex_args 0 1 1) ex_cancelled_run 0
           "m0 --- tea" eq_refl).
Defined.

(** No session for the first of two units: its task fails, the permit is
    back, the group can abort. *)
Lemma assign_error_escapes_witness :
  exists st u,
    exec ex_assign_fails (ex_args 0 2 1)
      [PickService; PickUnit 0; PickUnit 0]
      (init ex_assign_fails (ex_args 0 2 1)) = Some st
    /\ units st !! 0%nat = Some u
    /\ pc u = Ended (Failed "RuntimeError" "boom")
    /\ trace u = [Acquire; CallAssign; Release]
    /\ semaphore st = 12%nat
    /\ is_Some (step ex_assign_fails (ex_args 0 2 1) PickAbort st).
Proof.
  eexists. eexists. split; [vm_compute; reflexivity|].
  split; [reflexivity|]. split; [reflexivity|].
  destruct (assign_error_escapes ex_assign_fails (ex_args 0 2 1)
              [PickService; PickUnit 0; PickUnit 0] _ 0%nat _
              "RuntimeError" "boom"
              ltac:(vm_compute; reflexivity) eq_refl eq_refl)
    as (_ & Hfailed & _).
  destruct (Hfailed eq_refl) as (Htrace & _ & Habort).
  split; [exact Htrace|]. split; [reflexivity|].
  apply Habort; reflexivity.
Defined.

(** * Further properties *)

(** ** Dictionaries *)

Lemma assoc_get_set_eq k v d : assoc_get k (assoc_set k v d) = Some v.
Proof.
  induction d as [|[k' v'] d IH]; simpl.
  - now rewrite String.eqb_refl.
  - destruct (String.eqb k k') eqn:E; simpl.
    + now rewrite String.eqb_refl.
    + now rewrite E.
Qed.

Lemma assoc_get_set_ne k k' v d :
  k' <> k -> assoc_get k' (assoc_set k v d) = assoc_get k' d.
Proof.
  intros Hne. induction d as [|[k0 v0] d IH]; simpl.
  - apply String.eqb_neq in Hne. now rewrite Hne.
  - destruct (String.eqb k k0) eqn:E; simpl.
    + apply String.eqb_eq in E. subst k0.
      apply String.eqb_neq in Hne. now rewrite Hne.
    + now rewrite IH.
Qed.

Lemma assoc_set_same k v d : assoc_get k d = Some v -> assoc_set k v d = d.
Proof.
  induction d as [|[k0 v0] d IH]; simpl; [discriminate|].
  destruct (String.eqb k k0) eqn:E.
  - apply String.eqb_eq in E. now intros [= ->]; subst.
  - intros H. now rewrite IH.
Qed.

Lemma bind_ret {A B} (r : result A) (k : A -> result B) y :
  r ≫= k = Ret y -> exists x, r = Ret x /\ k x = Ret y.
Proof. destruct r; simpl; [eauto|discriminate]. Qed.

Lemma getitem_setitem_eq k v c c' : setitem k v c = Ret c' -> getitem k c' = Ret v.
Proof.
  destruct c; simpl; try discriminate. intros [= <-]. simpl.
  now rewrite assoc_get_set_eq.
Qed.

Lemma getitem_setitem_ne k k' v c c' :
  setitem k v c = Ret c' -> k' <> k -> getitem k' c' = getitem k' c.
Proof.
  destruct c; simpl; try discriminate. intros [= <-] Hne. simpl.
  now rewrite assoc_get_set_ne.
Qed.

Lemma setitem_same k v c : getitem k c = Ret v -> setitem k v c = Ret c.
Proof.
  destruct c; simpl; try discriminate.
  destruct (assoc_get k d) eqn:E; [|discriminate].
  intros [= ->]. now rewrite assoc_set_same.
Qed.

Lemma within_ret k f c c' :
  within k f c = Ret c' ->
  exists sub sub',
    getitem k c = Ret sub /\ f sub = Ret sub' /\ setitem k sub' c = Ret c'.
Proof.
  unfold within. intros H.
  apply bind_ret in H as (sub & Hsub & H).
  apply bind_ret in H as (sub' & Hf & H). eauto.
Qed.

(** ** Edits that set a path and edits that leave it *)

Lemma sets_setitem k v : sets [k] v (setitem k v).
Proof.
  intros c c' H. simpl. now rewrite (getitem_setitem_eq _ _ _ _ H).
Qed.

Lemma keeps_setitem k v k' rest : k' <> k -> keeps (k' :: rest) (setitem k v).
Proof.
  intros Hne c c' H. simpl. now rewrite (getitem_setitem_ne _ _ _ _ _ H Hne).
Qed.

Lemma sets_within k rest v f : sets rest v f -> sets (k :: rest) v (within k f).
Proof.
  intros Hf c c' H. apply within_ret in H as (sub & sub' & _ & Hsub & Hset).
  simpl. rewrite (getitem_setitem_eq _ _ _ _ Hset). simpl. eauto.
Qed.

Lemma keeps_within_ne k k' rest f : k' <> k -> keeps (k' :: rest) (within k f).
Proof.
  intros Hne c c' H. apply within_ret in H as (sub & sub' & _ & _ & Hset).
  simpl. now rewrite (getitem_setitem_ne _ _ _ _ _ Hset Hne).
Qed.

Lemma keeps_within_eq k rest f : keeps rest f -> keeps (k :: rest) (within k f).
Proof.
  intros Hf c c' H. apply within_ret in H as (sub & sub' & Hget & Hsub & Hset).
  simpl. rewrite (getitem_setitem_eq _ _ _ _ Hset), Hget. simpl. eauto.
Qed.

Lemma sets_then path v (f g : pyval -> result pyval) :
  sets path v g -> sets path v (fun c => f c ≫= g).
Proof. intros Hg c c' H. apply bind_ret in H as (c1 & _ & H). eauto. Qed.

Lemma sets_first path v (f g : pyval -> result pyval) :
  sets path v f -> keeps path g -> sets path v (fun c => f c ≫= g).
Proof.
  intros Hf Hg c c' H. apply bind_ret in H as (c1 & H1 & H).
  rewrite (Hg _ _ H). eauto.
Qed.

Lemma keeps_then path (f g : pyval -> result pyval) :
  keeps path f -> keeps path g -> keeps path (fun c => f c ≫= g).
Proof.
  intros Hf Hg c c' H. apply bind_ret in H as (c1 & H1 & H).
  rewrite (Hg _ _ H). eauto.
Qed.

Lemma keeps_ret path : keeps path Ret.
Proof. now intros c c' [= ->]. Qed.

Lemma keeps_restrict_all names k rest :
  k <> "dimensions" -> keeps (k :: rest) (restrict_all names).
Proof.
  intros Hne c c' H. unfold restrict_all in H.
  apply bind_ret in H as (ds & _ & H). destruct ds; try discriminate.
  - apply bind_ret in H as (? & _ & [= ->]). reflexivity.
  - apply bind_ret in H as (l' & _ & H).
    simpl. now rewrite (getitem_setitem_ne _ _ _ _ _ H Hne).
  - apply bind_ret in H as (? & _ & [= ->]). reflexivity.
Qed.

Lemma keeps_manager_tail args k rest :
  k <> "dimensions" ->
  keeps (k :: rest) (fun manager =>
                       match dimensions args with
                       | Some names => restrict_all names manager
                       | None => Ret manager
                       end).
Proof.
  intros Hne. destruct (dimensions args).
  - now apply keeps_restrict_all.
  - apply keeps_ret.
Qed.

(** Which rule applies is read off the edit. *)
Ltac edits :=
  first
    [ apply sets_setitem
    | apply sets_within; edits
    | apply keeps_setitem; discriminate
    | apply keeps_within_ne; discriminate
    | apply keeps_within_eq; edits
    | apply keeps_manager_tail; discriminate
    | apply keeps_then; [solve [edits] | solve [edits]]
    | apply sets_first; [solve [edits] | solve [edits]]
    | apply sets_then; solve [edits] ].

(** X1: when the edits of lines 33-70 go through, the configuration handed
    to [session.update_config()] carries every setting of the script: no
    streaming delay, the backend and the model chosen by [--llm], no
    prediction delay, concurrency allowed and callbacks forbidden for
    judges and panel, the two analysis switches chosen by the framework,
    the summarize flag of the command line, and a verdict-only record
    without prompts. *)
Theorem configure_settings args config config' :
  configure args config = Ret config' ->
  getpath ["arena"; "streaming_delay"] config' = Ret (PInt 0)
  /\ getpath ["model"; "chat_config"; "backend"] config'
     = Ret (PBackend match llm args with LlmTest => TEST | _ => OPENAI end)
  /\ getpath ["model"; "chat_config"; "test_config"; "predict_delay"] config'
     = Ret (PInt 0)
  /\ getpath ["model"; "chat_config"; "openai_config"; "model"] config'
     = Ret (PStr match llm args with
                 | LlmGpt4 => "gpt-4-0125-preview"
                 | _ => "gpt-3.5-turbo-0125"
                 end)
  /\ getpath ["panel"; "judge_config"; "allow_concurrency"] config'
     = Ret (PBool true)
  /\ getpath ["panel"; "judge_config"; "allow_ai_callback"] config'
     = Ret (PBool false)
  /\ getpath ["panel"; "judge_config"; "analyze_speech"] config'
     = Ret (PBool (negb (is_gpt (framework args))))
  /\ getpath ["panel"; "judge_config"; "iterate_analysis"] config'
     = Ret (PBool (is_debatrix (framework args)))
  /\ getpath ["panel"; "panel_config"; "allow_concurrency"] config'
     = Ret (PBool true)
  /\ getpath ["panel"; "panel_config"; "allow_ai_callback"] config'
     = Ret (PBool false)
  /\ getpath ["manager"; "should_summarize"] config'
     = Ret (PBool (should_summarize args))
  /\ getpath ["recorder"; "include_prompts"] config' = Ret (PBool false)
  /\ getpath ["recorder"; "verdict_only"] config' = Ret (PBool true).
Proof.
  intros H.
  repeat split; revert config config' H;
    match goal with
    | |- forall c c', _ -> getpath ?p c' = Ret ?v =>
        change (sets p v (configure args))
    end; unfold configure; edits.
Qed.
